(** * The Ethereum engagement engine of the wallet client

    A shallow embedding of [EthEngine] (class [EthEngine], file
    [eth-engine.ts] of the wallet library): the contract invoker
    ([isMethodPayable], [callFunction]) and the block range scanner
    ([scanBlockRange] with its inner closures [asyncScanNextBlock],
    [exitThread], [scanBlockCallback], [scanTransactionCallback]).

    Conventions.
    - JavaScript numbers that hold block heights, gas amounts and thread
      counters are integers in the code's use; they are modelled as [Z].
    - An argument that may be [undefined] is an [option]; [None] is
      [undefined].
    - The remote node (the web3 provider) is an oracle: a record of
      answers for the invoker, a schedule of answered requests for the
      scanner.  Every node request the engine makes is appended to a log,
      so that statements about which requests are made are statements
      about that log.
    - Writes to [process.stdout] (progress and throughput lines) are not
      part of the model, except that padding the final line may throw:
      whether it does is part of each turn of the event loop. *)

From Stdlib Require Import ZArith List Bool String Sorted Lia.
Import ListNotations.
Local Open Scope Z_scope.

(* ===================================================================== *)
(** ** Shared JavaScript notions *)
(* ===================================================================== *)

Definition Address := string.
Definition Bytecode := string.
Definition JsValue := string.

(** A value that holds an address string, [null] or [undefined]. *)
Inductive JsAddress : Type :=
| JsUndefined
| JsNull
| JsString (a : Address).

(** A property that holds an address or was never set, as a JavaScript
    value. *)
Definition js_address (a : option Address) : JsAddress :=
  match a with
  | Some x => JsString x
  | None => JsUndefined
  end.

(** Errors that reach the caller: a [TypeError] raised by a property read
    on [undefined] or by calling a method the contract object lacks, or an
    error reported by the node. *)
Inductive Err : Type :=
| TypeError
| NodeError (msg : string).

(** Truthiness of an optional string: [undefined] and the empty string
    are falsy. *)
Definition truthy_string (s : option string) : bool :=
  match s with
  | None => false
  | Some EmptyString => false
  | Some _ => true
  end.

(** Truthiness of an optional boolean: [undefined] and [false] are falsy. *)
Definition truthy_bool (b : option bool) : bool :=
  match b with
  | Some true => true
  | _ => false
  end.

(* ===================================================================== *)
(** ** The contract invoker *)
(* ===================================================================== *)

Module Invoker.

(** [enum EthConfirmation { RECEIPT = 0, CONFIRMATION = 1, STATIC = 2 }] *)
Inductive EthConfirmation : Type := RECEIPT | CONFIRMATION | STATIC.

Definition EthConfirmation_value (c : EthConfirmation) : Z :=
  match c with
  | RECEIPT => 0
  | CONFIRMATION => 1
  | STATIC => 2
  end.

(** One entry of a contract ABI, with the two properties the engine
    reads.  Entries such as the constructor have no [name]; entries of
    newer ABI formats have no [constant]. *)
Record AbiEntry : Type := {
  abi_name : option string;
  abi_constant : option bool
}.

(** [abi[i].name === name] *)
Definition name_is (name : string) (e : AbiEntry) : bool :=
  match abi_name e with
  | Some n => String.eqb n name
  | None => false
  end.

(** The [for (const i in abi)] loop of [isMethodPayable] over the entries
    in index order. *)
Fixpoint isMethodPayable_loop (name : string) (abi : list AbiEntry) : bool :=
  match abi with
  | [] => false
  | e :: rest =>
      if name_is name e then negb (truthy_bool (abi_constant e))
      else isMethodPayable_loop name rest
  end.

(** [isMethodPayable(name, abi)]; a [for ... in] over [undefined] runs no
    iteration. *)
Definition isMethodPayable (name : string) (abi : option (list AbiEntry)) : bool :=
  match abi with
  | None => false
  | Some entries => isMethodPayable_loop name entries
  end.

(** [generalParams], the call options object.  The invoker writes its
    [gas] and [gasLimit] properties in place. *)
Record GeneralParams : Type := {
  gas : option Z;
  gasLimit : option Z;
  value : option Z;
  from : option Address
}.

Definition set_gas (g : Z) (p : GeneralParams) : GeneralParams :=
  {| gas := Some g; gasLimit := gasLimit p; value := value p; from := from p |}.

Definition set_gasLimit (g : Z) (p : GeneralParams) : GeneralParams :=
  {| gas := gas p; gasLimit := Some g; value := value p; from := from p |}.

(** The constructor arguments kept by the engine.  [abiConfiguration] may
    be [undefined] (the constructor tests it); the engine reads a
    [defaultWallet] property from it. *)
Record AbiConfiguration : Type := {
  entries : list AbiEntry;
  abi_defaultWallet : option Address
}.

Record Configuration : Type := {
  defaultWallet : option Address;
  contractAddress : option Address
}.

Record Bin : Type := { code : option Bytecode }.

Record EthEngine : Type := {
  abiConfiguration : option AbiConfiguration;
  configuration : Configuration;
  bin : option Bin
}.

(** [this.configuration.contractAddress] *)
Definition bound_contractAddress (this : EthEngine) : option Address :=
  contractAddress (configuration this).

(** [new this.web3.eth.Contract(abi, address)] *)
Record Contract : Type := {
  contract_abi : list AbiEntry;
  contract_address : option Address
}.

Record Receipt : Type := {
  transactionHash : string;
  confNumber : option Z
}.

Definition set_confNumber (n : Z) (r : Receipt) : Receipt :=
  {| transactionHash := transactionHash r; confNumber := Some n |}.

(** What the node does with a broadcast transaction: it is mined (the
    [receipt] event, then the first [confirmation] event with its
    number), or the send fails. *)
Inductive SendOutcome : Type :=
| SendMined (rec : Receipt) (confNumber : Z)
| SendFailed (e : Err).

(** The answers of web3 and of the node behind it. *)
Record Web3 : Type := {
  eth_getCode : Address -> Err + Bytecode;
  eth_estimateGas : option Bytecode -> option Address -> Err + Z;
  (** does [contract.methods[name](...params)] build a method object
      ([false]: it throws) *)
  methods : Contract -> string -> list JsValue -> bool;
  method_send : Contract -> string -> list JsValue -> GeneralParams -> SendOutcome;
  method_call : Contract -> string -> list JsValue -> GeneralParams -> Err + JsValue
}.

(** The requests the invoker makes to the node, as logged. *)
Inductive NodeCall : Type :=
| GetCode (address : Address)
| EstimateGas (data : option Bytecode) (to : option Address)
| Send (name : string) (params : list JsValue) (options : GeneralParams)
| Call (name : string) (params : list JsValue) (options : GeneralParams).

(** What the caller's promise holds in the end. *)
Inductive Settled : Type :=
| ResolvedReceipt (rec : Receipt)
| ResolvedValue (v : JsValue)
| Rejected (e : Err)
| NeverSettled.

(** *** A small monad: the request log and the options object are state
    that survives an exception. *)

Record InvState : Type := {
  log : list NodeCall;
  options : GeneralParams
}.

Definition M (A : Type) : Type := InvState -> InvState * (Err + A).

Definition ret {A} (a : A) : M A := fun s => (s, inr a).

Definition throw {A} (e : Err) : M A := fun s => (s, inl e).

Definition bind {A B} (m : M A) (k : A -> M B) : M B :=
  fun s =>
    match m s with
    | (s', inl e) => (s', inl e)
    | (s', inr a) => k a s'
    end.

Notation "x <- m ;; k" := (bind m (fun x => k))
  (at level 61, m at next level, right associativity).
Notation "m ;;; k" := (bind m (fun _ => k))
  (at level 61, right associativity).

(** Log a request to the node. *)
Definition request (c : NodeCall) : M unit :=
  fun s => ({| log := log s ++ [c]; options := options s |}, inr tt).

(** [await] a node answer: a failure is thrown. *)
Definition await {A} (r : Err + A) : M A :=
  match r with
  | inl e => throw e
  | inr a => ret a
  end.

Definition read_options : M GeneralParams := fun s => (s, inr (options s)).

Definition update_options (f : GeneralParams -> GeneralParams) : M unit :=
  fun s => ({| log := log s; options := f (options s) |}, inr tt).

(** A property read on a value that may be [undefined]. *)
Definition deref {A} (o : option A) : M A :=
  match o with
  | None => throw TypeError
  | Some a => ret a
  end.

(** [getContractCode(contractAddress)] *)
Definition getContractCode (w3 : Web3) (address : Address) : M Bytecode :=
  request (GetCode address) ;;;
  await (eth_getCode w3 address).

(** The ABI handed to [isMethodPayable]:
    [abi === undefined ? this.abiConfiguration : abi]. *)
Definition lookup_abi (this : EthEngine) (abi : option (list AbiEntry))
  : option (list AbiEntry) :=
  match abi with
  | None => option_map entries (abiConfiguration this)
  | Some a => Some a
  end.

(** The [switch (confirmation)] inside the promise executor, after the
    method object was built. *)
Definition dispatch (w3 : Web3) (contract : Contract) (name : string)
  (params : list JsValue) (confirmation : Z) : M Settled :=
  generalParams <- read_options ;;
  if confirmation =? EthConfirmation_value RECEIPT then
    request (Send name params generalParams) ;;;
    match method_send w3 contract name params generalParams with
    | SendMined rec _ => ret (ResolvedReceipt rec)
    | SendFailed err => ret (Rejected err)
    end
  else if confirmation =? EthConfirmation_value CONFIRMATION then
    request (Send name params generalParams) ;;;
    match method_send w3 contract name params generalParams with
    | SendMined receipt confNumber =>
        ret (ResolvedReceipt (set_confNumber confNumber receipt))
    | SendFailed err => ret (Rejected err)
    end
  else if confirmation =? EthConfirmation_value STATIC then
    request (Call name params generalParams) ;;;
    match method_call w3 contract name params generalParams with
    | inl err => ret (Rejected err)
    | inr result => ret (ResolvedValue result)
    end
  else ret NeverSettled.

(** The body of [callFunction]. *)
Definition callFunction_body (this : EthEngine) (w3 : Web3) (name : string)
  (params : list JsValue) (confirmation : option EthConfirmation)
  (abi : option (list AbiEntry)) (contractAddress : option Address) : M Settled :=
  let confirmation :=
    match confirmation with
    | None => 0
    | Some c => EthConfirmation_value c
    end in
  let payable := isMethodPayable name (lookup_abi this abi) in
  target <-
    match abi, truthy_string contractAddress with
    | Some abi, true =>
        code <- (if payable
                 then match contractAddress with
                      | Some a => c <- getContractCode w3 a ;; ret (Some c)
                      | None => ret None
                      end
                 else ret None) ;;
        ret ({| contract_abi := abi; contract_address := contractAddress |},
             code, defaultWallet (configuration this))
    | _, _ =>
        cfg <- deref (abiConfiguration this) ;;
        b <- deref (bin this) ;;
        ret ({| contract_abi := entries cfg;
                contract_address := bound_contractAddress this |},
             code b, abi_defaultWallet cfg)
    end ;;
  let '(contract, code, defaultWallet) := target in
  generalParams <- read_options ;;
  (match gas generalParams with
   | None =>
       if payable then
         request (EstimateGas code defaultWallet) ;;;
         ets <- await (eth_estimateGas w3 code defaultWallet) ;;
         update_options (set_gas ets) ;;;
         update_options (set_gasLimit (ets * 2))
       else ret tt
   | Some _ => ret tt
   end) ;;;
  if methods w3 contract name params
  then dispatch w3 contract name params confirmation
  else ret (Rejected TypeError).

(** The contract object [callFunction] builds, when it gets that far:
    the one at [contractAddress] when an [abi] and a non-empty address
    are passed, the bound one otherwise, after the reads of
    [this.abiConfiguration.defaultWallet] and [this.bin.code]. *)
Definition target_contract (this : EthEngine) (abi : option (list AbiEntry))
  (contractAddress : option Address) : option Contract :=
  match abi, truthy_string contractAddress with
  | Some abi, true =>
      Some {| contract_abi := abi; contract_address := contractAddress |}
  | _, _ =>
      match abiConfiguration this, bin this with
      | Some cfg, Some _ =>
          Some {| contract_abi := entries cfg;
                  contract_address := bound_contractAddress this |}
      | _, _ => None
      end
  end.

(** One invocation as the caller observes it: the requests made to the
    node, the options object after the call, and the promise's fate. *)
Record Invocation : Type := {
  requests : list NodeCall;
  generalParams_after : GeneralParams;
  settled : Settled
}.

(** [callFunction(name, params, generalParams, confirmation?, abi?,
    contractAddress?)]; an exception in the [async] body rejects the
    promise. *)
Definition callFunction (this : EthEngine) (w3 : Web3) (name : string)
  (params : list JsValue) (generalParams : GeneralParams)
  (confirmation : option EthConfirmation)
  (abi : option (list AbiEntry)) (contractAddress : option Address) : Invocation :=
  match callFunction_body this w3 name params confirmation abi contractAddress
          {| log := []; options := generalParams |} with
  | (s, inl e) =>
      {| requests := log s; generalParams_after := options s; settled := Rejected e |}
  | (s, inr o) =>
      {| requests := log s; generalParams_after := options s; settled := o |}
  end.

(** *** Observations on a request log *)

Definition is_estimate (c : NodeCall) : bool :=
  match c with EstimateGas _ _ => true | _ => false end.

Definition is_send (c : NodeCall) : bool :=
  match c with Send _ _ _ => true | _ => false end.

Definition is_call (c : NodeCall) : bool :=
  match c with Call _ _ _ => true | _ => false end.

Definition count (p : NodeCall -> bool) (l : list NodeCall) : nat :=
  List.length (filter p l).

Definition is_getCode (c : NodeCall) : bool :=
  match c with GetCode _ => true | _ => false end.

(** A send or a call. *)
Definition is_dispatch (c : NodeCall) : bool := is_send c || is_call c.

(** The options a dispatched request (a send or a call) carried. *)
Definition dispatched_options (c : NodeCall) : option GeneralParams :=
  match c with
  | Send _ _ o => Some o
  | Call _ _ o => Some o
  | _ => None
  end.

End Invoker.

(* ===================================================================== *)
(** ** The block range scanner *)
(* ===================================================================== *)

Module Scanner.

(** [private maxThreads = 20] *)
Definition maxThreads : Z := 20.

(** A transaction as the node returns it; [to] is [null] for a contract
    creation. *)
Record Txn : Type := {
  txn_from : Address;
  txn_to : JsAddress;
  txn_value : Z
}.

(** A block fetched with its transaction bodies; [transactions] may be
    missing. *)
Record Block : Type := {
  timestamp : Z;
  transactions : option (list Txn)
}.

(** An entry of [results].  The code pushes the template strings
    [`\r${block.timestamp} +${ether} from ${txn.from}`] and
    [`\r${block.timestamp} -${ether} to ${txn.to}`]; the entry keeps the
    parts the string is made of, with the amount as the node gave it. *)
Inductive Message : Type :=
| Credit (timestamp : Z) (amount : Z) (from : Address)
| Debit (timestamp : Z) (amount : Z) (to : JsAddress).

(** A call of [web3.eth.getBlock(myBlockNumber, true, callback)].  The
    [worker] is the index [nt] of the loop iteration that started the
    chain of callbacks the call belongs to; the code has no such field. *)
Record Fetch : Type := {
  worker : nat;
  height : Z
}.

(** The requests a scan makes to the node, as logged. *)
Inductive Request : Type :=
| GetBlockNumber
| GetBlock (f : Fetch).

(** What stays fixed once the heights are resolved: the two heights,
    whether a [callback] was passed, and [web3.defaultAccount]. *)
Record ScanArgs : Type := {
  startingBlock : Z;
  stoppingBlock : Z;
  callback : bool;
  defaultAccount : JsAddress
}.

(** The variables the closures of one scan share.
    - [inFlight]: the [getBlock] calls whose callback has not run yet.
    - [promise]: [None] while the promise returned by [scanBlockRange]
      is pending; [Some n] once [resolve(results)] ran, [n] being the
      size of [results] at that moment.  The promise holds the array
      itself, so what the caller reads later is [results].
    - [callbackCalls]: the arguments of each [callback(gotError,
      stoppingBlock)] call. *)
Record Scan : Type := {
  requests : list Request;
  blockNumber : Z;
  gotError : bool;
  numThreads : Z;
  results : list Message;
  inFlight : list Fetch;
  promise : option nat;
  callbackCalls : list (bool * Z)
}.

Definition set_requests (v : list Request) (s : Scan) : Scan :=
  {| requests := v; blockNumber := blockNumber s; gotError := gotError s;
     numThreads := numThreads s; results := results s; inFlight := inFlight s;
     promise := promise s; callbackCalls := callbackCalls s |}.

Definition set_blockNumber (v : Z) (s : Scan) : Scan :=
  {| requests := requests s; blockNumber := v; gotError := gotError s;
     numThreads := numThreads s; results := results s; inFlight := inFlight s;
     promise := promise s; callbackCalls := callbackCalls s |}.

Definition set_gotError (v : bool) (s : Scan) : Scan :=
  {| requests := requests s; blockNumber := blockNumber s; gotError := v;
     numThreads := numThreads s; results := results s; inFlight := inFlight s;
     promise := promise s; callbackCalls := callbackCalls s |}.

Definition set_numThreads (v : Z) (s : Scan) : Scan :=
  {| requests := requests s; blockNumber := blockNumber s; gotError := gotError s;
     numThreads := v; results := results s; inFlight := inFlight s;
     promise := promise s; callbackCalls := callbackCalls s |}.

Definition set_results (v : list Message) (s : Scan) : Scan :=
  {| requests := requests s; blockNumber := blockNumber s; gotError := gotError s;
     numThreads := numThreads s; results := v; inFlight := inFlight s;
     promise := promise s; callbackCalls := callbackCalls s |}.

Definition set_inFlight (v : list Fetch) (s : Scan) : Scan :=
  {| requests := requests s; blockNumber := blockNumber s; gotError := gotError s;
     numThreads := numThreads s; results := results s; inFlight := v;
     promise := promise s; callbackCalls := callbackCalls s |}.

Definition set_promise (v : option nat) (s : Scan) : Scan :=
  {| requests := requests s; blockNumber := blockNumber s; gotError := gotError s;
     numThreads := numThreads s; results := results s; inFlight := inFlight s;
     promise := v; callbackCalls := callbackCalls s |}.

Definition set_callbackCalls (v : list (bool * Z)) (s : Scan) : Scan :=
  {| requests := requests s; blockNumber := blockNumber s; gotError := gotError s;
     numThreads := numThreads s; results := results s; inFlight := inFlight s;
     promise := promise s; callbackCalls := v |}.

(** [a === b] between a transaction's address and [web3.defaultAccount]:
    [null] equals [null], [undefined] equals [undefined], a string the
    same string, and nothing else is equal. *)
Definition strict_eq (a b : JsAddress) : bool :=
  match a, b with
  | JsUndefined, JsUndefined => true
  | JsNull, JsNull => true
  | JsString x, JsString y => String.eqb x y
  | _, _ => false
  end.

(** [scanTransactionCallback(txn, block)] *)
Definition scanTransactionCallback (a : ScanArgs) (txn : Txn) (block : Block)
  (s : Scan) : Scan :=
  if strict_eq (txn_to txn) (defaultAccount a) then
    set_results (results s ++ [Credit (timestamp block) (txn_value txn) (txn_from txn)]) s
  else if strict_eq (JsString (txn_from txn)) (defaultAccount a) then
    set_results (results s ++ [Debit (timestamp block) (txn_value txn) (txn_to txn)]) s
  else s.

(** [scanBlockCallback(block)] *)
Definition scanBlockCallback (a : ScanArgs) (block : Block) (s : Scan) : Scan :=
  match transactions block with
  | Some txns => fold_left (fun s txn => scanTransactionCallback a txn block s) txns s
  | None => s
  end.

(** [resolve(results)]: only the first call settles the promise. *)
Definition resolve (s : Scan) : Scan :=
  match promise s with
  | None => set_promise (Some (List.length (results s))) s
  | Some _ => s
  end.

(** The terminal at the moment [exitThread] pads the final line with
    [Array(1 + numSpaces)], where [numSpaces = process.stdout.columns -
    len]: with [LineFits] the array is built; with [NoRoom] the standard
    output is not a terminal ([columns] is [undefined]) or is narrower
    than the line, and a [RangeError] is thrown. *)
Inductive Terminal : Type :=
| LineFits
| NoRoom.

(** [exitThread()] in front of the terminal [tty].  The exception of
    [NoRoom] leaves the function inside the [if], after the counter was
    decremented and before [callback] and [resolve]. *)
Definition exitThread (a : ScanArgs) (tty : Terminal) (s : Scan) : Scan :=
  let s := set_numThreads (numThreads s - 1) s in
  if numThreads s =? 0 then
    match tty with
    | NoRoom => s
    | LineFits =>
        let s :=
          if callback a
          then set_callbackCalls (callbackCalls s ++ [(gotError s, stoppingBlock a)]) s
          else s in
        resolve s
    end
  else resolve s.

(** [asyncScanNextBlock()], run by the chain of callbacks [w]. *)
Definition asyncScanNextBlock (a : ScanArgs) (tty : Terminal) (w : nat) (s : Scan)
  : Scan :=
  if gotError s then exitThread a tty s
  else if blockNumber s >? stoppingBlock a then exitThread a tty s
  else
    let myBlockNumber := blockNumber s in
    let s := set_blockNumber (blockNumber s + 1) s in
    let f := {| worker := w; height := myBlockNumber |} in
    set_inFlight (inFlight s ++ [f]) (set_requests (requests s ++ [GetBlock f]) s).

(** What happens at one turn of the event loop: the node answers a
    [getBlock] call with an error or with a block, and the callback runs
    in front of the terminal.  [AnswerBlock]: a block, and the final
    line can be padded should this callback come to print it;
    [AnswerBlockNoRoom]: a block, in front of a terminal of [NoRoom]. *)
Inductive Answer : Type :=
| AnswerError
| AnswerBlock (block : Block)
| AnswerBlockNoRoom (block : Block).

(** The callback passed to [getBlock], for the fetch [f]. *)
Definition getBlock_callback (a : ScanArgs) (f : Fetch) (ans : Answer) (s : Scan) : Scan :=
  match ans with
  | AnswerError => set_gotError true s
  | AnswerBlock block =>
      asyncScanNextBlock a LineFits (worker f) (scanBlockCallback a block s)
  | AnswerBlockNoRoom block =>
      asyncScanNextBlock a NoRoom (worker f) (scanBlockCallback a block s)
  end.

(** Remove the [i]-th element of a list. *)
Fixpoint remove_nth {A} (i : nat) (l : list A) : list A :=
  match l, i with
  | [], _ => []
  | _ :: l', O => l'
  | x :: l', S i' => x :: remove_nth i' l'
  end.

(** One turn of the event loop: the node answers the [i]-th call in
    flight and its callback runs to completion.  [None] when there is no
    such call. *)
Definition deliver (a : ScanArgs) (s : Scan) (i : nat) (ans : Answer) : option Scan :=
  match nth_error (inFlight s) i with
  | None => None
  | Some f => Some (getBlock_callback a f ans (set_inFlight (remove_nth i (inFlight s)) s))
  end.

(** A schedule is the sequence of answers the node gives, each to the
    call at some position of [inFlight]. *)
Definition Schedule : Type := list (nat * Answer).

Fixpoint run (a : ScanArgs) (s : Scan) (sched : Schedule) : option Scan :=
  match sched with
  | [] => Some s
  | (i, ans) :: rest =>
      match deliver a s i ans with
      | None => None
      | Some s' => run a s' rest
      end
  end.

(** The loop
    [for (nt = 0; nt < that.maxThreads && startingBlock + nt <= stoppingBlock; nt++)]
    with [fuel] bounding the iterations left; the loop leaves by its own
    condition within [maxThreads] iterations.  The loop runs in front of
    the terminal [tty], which it never looks at: its calls of
    [asyncScanNextBlock] all start a fetch. *)
Fixpoint spawn_loop (a : ScanArgs) (tty : Terminal) (fuel : nat) (nt : Z) (s : Scan)
  : Z * Scan :=
  match fuel with
  | O => (nt, s)
  | S fuel' =>
      if (nt <? maxThreads) && (startingBlock a + nt <=? stoppingBlock a) then
        let s := set_numThreads (numThreads s + 1) s in
        let s := asyncScanNextBlock a tty (Z.to_nat nt) s in
        spawn_loop a tty fuel' (nt + 1) s
      else (nt, s)
  end.

(** The defaults of [scanBlockRange]: [!stoppingBlock] asks the node for
    the chain head, [!startingBlock] takes [stoppingBlock - 10]; [!x]
    holds of [undefined] and of [0].  The result says whether the node
    was asked, and the two heights. *)
Definition resolve_heights (chainHead : Z) (startingBlock stoppingBlock : option Z)
  : bool * Z * Z :=
  let '(asked, stoppingBlock) :=
    match stoppingBlock with
    | Some z => if z =? 0 then (true, chainHead) else (false, z)
    | None => (true, chainHead)
    end in
  let startingBlock :=
    match startingBlock with
    | Some z => if z =? 0 then stoppingBlock - 10 else z
    | None => stoppingBlock - 10
    end in
  (asked, startingBlock, stoppingBlock).

(** The state of the closure variables before the first worker starts. *)
Definition initial (asked : bool) (startingBlock : Z) : Scan :=
  {| requests := if asked then [GetBlockNumber] else [];
     blockNumber := startingBlock;
     gotError := false;
     numThreads := 0;
     results := [];
     inFlight := [];
     promise := None;
     callbackCalls := [] |}.

(** The promise executor of [scanBlockRange] once the heights are known:
    the range test, whose [return -1] leaves the executor without
    settling the promise, and the loop that starts the workers. *)
Definition start_scan (a : ScanArgs) (asked : bool) : Scan :=
  let s := initial asked (startingBlock a) in
  if startingBlock a >? stoppingBlock a then s
  else snd (spawn_loop a LineFits (Z.to_nat maxThreads) 0 s).

(** The resolved arguments of [scanBlockRange(startingBlock?,
    stoppingBlock?, callback?)] against a node whose chain head is
    [chainHead] and an engine whose [web3.defaultAccount] is [account]. *)
Definition scan_args (account : JsAddress) (chainHead : Z)
  (startingBlock stoppingBlock : option Z) (callback : bool) : ScanArgs :=
  let '(_, start, stop) := resolve_heights chainHead startingBlock stoppingBlock in
  {| startingBlock := start; stoppingBlock := stop;
     callback := callback; defaultAccount := account |}.

(** [scanBlockRange(startingBlock?, stoppingBlock?, callback?)] up to
    the end of the promise executor; the answers of the node then drive
    the scan through [run]. *)
Definition scanBlockRange (account : JsAddress) (chainHead : Z)
  (startingBlock stoppingBlock : option Z) (callback : bool) : Scan :=
  let '(asked, _, _) := resolve_heights chainHead startingBlock stoppingBlock in
  start_scan (scan_args account chainHead startingBlock stoppingBlock callback) asked.

(** *** Observations on a scan *)

(** The fetches a scan has issued, in the order of issue. *)
Fixpoint fetches (l : list Request) : list Fetch :=
  match l with
  | [] => []
  | GetBlockNumber :: l' => fetches l'
  | GetBlock f :: l' => f :: fetches l'
  end.

Definition claimed (s : Scan) : list Z := map height (fetches (requests s)).

(** The heights [start], [start + 1], ..., [n] of them. *)
Fixpoint heights_from (start : Z) (n : nat) : list Z :=
  match n with
  | O => []
  | S n' => start :: heights_from (start + 1) n'
  end.

(** The entry [scanTransactionCallback] pushes for a transaction, if
    any. *)
Definition transfer (a : ScanArgs) (txn : Txn) (block : Block) : list Message :=
  if strict_eq (txn_to txn) (defaultAccount a) then
    [Credit (timestamp block) (txn_value txn) (txn_from txn)]
  else if strict_eq (JsString (txn_from txn)) (defaultAccount a) then
    [Debit (timestamp block) (txn_value txn) (txn_to txn)]
  else [].

(** The entries one block adds to [results]. *)
Definition transfers (a : ScanArgs) (block : Block) : list Message :=
  match transactions block with
  | Some txns => flat_map (fun txn => transfer a txn block) txns
  | None => []
  end.

(** The entries the blocks answered in a schedule add, in the order of
    the answers. *)
Definition answered_transfers (a : ScanArgs) (sched : Schedule) : list Message :=
  flat_map (fun e => match snd e with
                     | AnswerBlock block => transfers a block
                     | AnswerBlockNoRoom block => transfers a block
                     | AnswerError => []
                     end) sched.

(** How often the node was asked for the chain head. *)
Definition is_head_query (r : Request) : bool :=
  match r with
  | GetBlockNumber => true
  | GetBlock _ => false
  end.

Definition head_queries (l : list Request) : nat :=
  List.length (filter is_head_query l).

(** A schedule in which no fetch fails. *)
Definition no_failure (sched : Schedule) : Prop :=
  Forall (fun e => snd e <> AnswerError) sched.

(** A schedule in which no fetch fails and the terminal has room for the
    final line at every turn. *)
Definition all_printed (sched : Schedule) : Prop :=
  Forall (fun e => exists block, snd e = AnswerBlock block) sched.

(** The block an answer carries, if it is no error. *)
Definition answered (ans : Answer) (block : Block) : Prop :=
  ans = AnswerBlock block \/ ans = AnswerBlockNoRoom block.

(** All workers have exited or died: nothing is left that could run. *)
Definition quiescent (s : Scan) : Prop := inFlight s = [].

End Scanner.

(* ===================================================================== *)
(** ** Logging in *)
(* ===================================================================== *)

Module Accounts.

(** An account as [web3.eth.accounts.decrypt] returns it. *)
Record Account : Type := {
  address : Address;
  privateKey : string
}.

(** The properties of the web3 object the engine writes: its own
    [defaultAccount], set by the constructor and compared with by the
    scanner; the [defaultAccount] of its [eth] object, a property of
    another object; and [wallet], the accounts handed to
    [eth.accounts.wallet.add], in the order of the calls. *)
Record Web3State : Type := {
  defaultAccount : option Address;
  eth_defaultAccount : option Address;
  wallet : list Account
}.

(** The engine with its web3 object. *)
Record Engine : Type := {
  this : Invoker.EthEngine;
  web3 : Web3State
}.

(** [constructor(abiConfiguration, configuration, bin)]: a fresh web3
    object whose [defaultAccount] is [configuration.defaultWallet]. *)
Definition construct (abiConfiguration : option Invoker.AbiConfiguration)
  (configuration : Invoker.Configuration) (bin : option Invoker.Bin) : Engine :=
  {| this := {| Invoker.abiConfiguration := abiConfiguration;
                Invoker.configuration := configuration;
                Invoker.bin := bin |};
     web3 := {| defaultAccount := Invoker.defaultWallet configuration;
                eth_defaultAccount := None;
                wallet := [] |} |}.

(** [this.configuration.defaultWallet = address] *)
Definition set_defaultWallet (a : Address) (e : Invoker.EthEngine)
  : Invoker.EthEngine :=
  {| Invoker.abiConfiguration := Invoker.abiConfiguration e;
     Invoker.configuration :=
       {| Invoker.defaultWallet := Some a;
          Invoker.contractAddress :=
            Invoker.contractAddress (Invoker.configuration e) |};
     Invoker.bin := Invoker.bin e |}.

(** [login(keystore, password)] against a library whose
    [accounts.decrypt] answers [decrypt]: the engine afterwards, and the
    value returned ([None]: [undefined]) or the exception thrown. *)
Definition login (decrypt : string -> string -> Err + Account) (e : Engine)
  (keystore password : option string) : Engine * (Err + option Account) :=
  if negb (truthy_string keystore) || negb (truthy_string password)
  then (e, inr None)
  else
    match keystore, password with
    | Some k, Some p =>
        match decrypt k p with
        | inl err => (e, inl err)
        | inr w =>
            ({| this := set_defaultWallet (address w) (this e);
                web3 := {| defaultAccount := defaultAccount (web3 e);
                           eth_defaultAccount := Some (address w);
                           wallet := wallet (web3 e) ++ [w] |} |},
             inr (Some w))
        end
    | _, _ => (e, inr None)
    end.

(** Several [login] calls in a row, whatever each one returns. *)
Fixpoint logins (decrypt : string -> string -> Err + Account) (e : Engine)
  (attempts : list (option string * option string)) : Engine :=
  match attempts with
  | [] => e
  | (k, p) :: rest => logins decrypt (fst (login decrypt e k p)) rest
  end.

(** [scanBlockRange(startingBlock, stoppingBlock, callback)] of an
    engine: the scan compares with [that.web3.defaultAccount]. *)
Definition scanBlockRange (e : Engine) (chainHead : Z)
  (start stop : option Z) (cb : bool) : Scanner.Scan :=
  Scanner.scanBlockRange (js_address (defaultAccount (web3 e)))
    chainHead start stop cb.

(** The accounts the [login] calls of a run of attempts return, in the
    order of the calls. *)
Fixpoint logged_in (decrypt : string -> string -> Err + Account) (e : Engine)
  (attempts : list (option string * option string)) : list Account :=
  match attempts with
  | [] => []
  | (k, p) :: rest =>
      match snd (login decrypt e k p) with
      | inr (Some w) => w :: logged_in decrypt (fst (login decrypt e k p)) rest
      | _ => logged_in decrypt (fst (login decrypt e k p)) rest
      end
  end.

(** The account of an attempt the library accepts: keystore and password
    are non-empty strings and [accounts.decrypt] returns it. *)
Definition accepted (decrypt : string -> string -> Err + Account)
  (attempt : option string * option string) : option Account :=
  match attempt with
  | (Some (String c k), Some (String d p)) =>
      match decrypt (String c k) (String d p) with
      | inr w => Some w
      | inl _ => None
      end
  | _ => None
  end.

(** The last element of a list, if it has one. *)
Definition latest {A : Type} (l : list A) : option A :=
  List.last (map Some l) None.

End Accounts.

(* ===================================================================== *)
(** ** Raw requests to the bitcoin node *)
(* ===================================================================== *)

Module RawRequest.
Local Open Scope string_scope.

(** [configuration] of [../config], with the properties the module
    reads. *)
Record Configuration : Type := {
  protocol : string;
  user : string;
  pass : string;
  host : string;
  port : string
}.

(** [url] *)
Definition url (c : Configuration) : string :=
  protocol c ++ "://" ++ user c ++ ":" ++ pass c ++ "@" ++ host c ++ ":" ++ port c.

(** The [params] property of a request body. *)
Inductive Params : Type :=
| NoParams
| FundParams (tx : JsValue) (feeRate : JsValue)
| EstimateParams (blocks : Z).

(** A request body. *)
Record Body : Type := {
  method : string;
  rpcuser : string;
  rpcpassword : string;
  params : Params
}.

(** A response: [data] may be missing, and so may [data.result]. *)
Record Response : Type := {
  data : option (option JsValue)
}.

(** [axios.post(url, body)] *)
Definition Post : Type := string -> Body -> Err + Response.

(** What an exported function's promise holds in the end. *)
Inductive Returned (A : Type) : Type :=
| Fulfilled (v : A)
| Failed (e : Err).
Arguments Fulfilled {A} v.
Arguments Failed {A} e.

(** The value [getRawChangeAddress] returns. *)
Inductive ChangeAddress : Type :=
| Null
| Undefined
| Result (v : JsValue).

(** [getRawChangeAddress()], with the posts made; [body] is the
    function's [data].  A missing [response.data] makes the read of
    [result] throw inside the [try], as a failed post does. *)
Definition getRawChangeAddress (c : Configuration) (post : Post)
  : list (string * Body) * Returned ChangeAddress :=
  let body := {| method := "getrawchangeaddress"; rpcuser := user c;
                 rpcpassword := pass c; params := NoParams |} in
  ([(url c, body)],
   match post (url c) body with
   | inr response =>
       match data response with
       | Some (Some result) => Fulfilled (Result result)
       | Some None => Fulfilled Undefined
       | None => Fulfilled Null
       end
   | inl err => Fulfilled Null
   end).

(** [fundRawTransaction(tx, feePerKb)] *)
Definition fundRawTransaction (c : Configuration) (post : Post)
  (tx feePerKb : JsValue) : list (string * Body) * Returned Response :=
  let body := {| method := "fundrawtransaction"; rpcuser := user c;
                 rpcpassword := pass c; params := FundParams tx feePerKb |} in
  ([(url c, body)],
   match post (url c) body with
   | inr response => Fulfilled response
   | inl err => Failed err
   end).

(** [estimateFee()] *)
Definition estimateFee (c : Configuration) (post : Post)
  : list (string * Body) * Returned Response :=
  let body := {| method := "estimatefee"; rpcuser := user c;
                 rpcpassword := pass c; params := EstimateParams 6 |} in
  ([(url c, body)],
   match post (url c) body with
   | inr response => Fulfilled response
   | inl err => Failed err
   end).

End RawRequest.

(* ===================================================================== *)
(** ** The coin factory *)
(* ===================================================================== *)

Module CoinFactory.

(** The members of the enum [Coins] that [createCoin] names; [OTHER]
    stands for any further member.  The enum's declaration is in another
    file; its members are taken to have pairwise different values. *)
Inductive Coins : Type :=
| BTC | ETH | REP | BAT | ANT | BTM | CVC | DCR | DENT | DNT | EOS | GNO
| GNT | LTC | OMG | SALT | SUB | TRX | SNT | ZRX | BNT | DGD | PPT | EDG
| ENJ | ETHOS | FUN | ICN | ICX | MCO | MKR | REQ | PAY | VET | STORJ | QASH
| OTHER.

(** The classes the factory instantiates; an object is known by its
    class. *)
Inductive CoinModel : Type :=
| BtcCoinModel | EthCoinModel | RepCoinModel | DcrCoinModel | AntCoinModel
| BatCoinModel | EosCoinModel | GnoCoinModel | GntCoinModel | SaltCoinModel
| LtcCoinModel | CvcCoinModel | DntCoinModel | SntCoinModel | SubCoinModel
| TrxCoinModel | OmgCoinModel | BtmCoinModel | DentCoinModel | PptCoinModel
| MkrCoinModel | DgdCoinModel | QashCoinModel | EthosCoinModel | FunCoinModel
| ZrxCoinModel | ReqCoinModel | BntCoinModel | IcnCoinModel | TenxCoinModel
| StorjCoinModel | EnjCoinModel | McoCoinModel | EdgCoinModel | VetCoinModel
| IcxCoinModel | PartCoinModel | XvgCoinModel | VtcCoinModel | DashCoinModel
| ViaCoinModel | BchCoinModel.

(** [CoinFactory.createCoin(coin)]; [None] is the [throw new Error()] of
    the [default] case. *)
Definition createCoin (coin : Coins) : option CoinModel :=
  match coin with
  | BTC => Some BtcCoinModel
  | ETH => Some EthCoinModel
  | REP => Some RepCoinModel
  | BAT => Some BatCoinModel
  | ANT => Some AntCoinModel
  | BTM => Some BtmCoinModel
  | CVC => Some CvcCoinModel
  | DCR => Some DcrCoinModel
  | DENT => Some DentCoinModel
  | DNT => Some DntCoinModel
  | EOS => Some EosCoinModel
  | GNO => Some GnoCoinModel
  | GNT => Some GntCoinModel
  | LTC => Some LtcCoinModel
  | OMG => Some OmgCoinModel
  | SALT => Some SaltCoinModel
  | SUB => Some SubCoinModel
  | TRX => Some TrxCoinModel
  | SNT => Some SntCoinModel
  | ZRX => Some ZrxCoinModel
  | BNT => Some BntCoinModel
  | DGD => Some DgdCoinModel
  | PPT => Some PptCoinModel
  | EDG => Some EdgCoinModel
  | ENJ => Some EnjCoinModel
  | ETHOS => Some EthosCoinModel
  | FUN => Some FunCoinModel
  | ICN => Some IcnCoinModel
  | ICX => Some IcxCoinModel
  | MCO => Some McoCoinModel
  | MKR => Some MkrCoinModel
  | REQ => Some ReqCoinModel
  | PAY => Some TenxCoinModel
  | VET => Some VetCoinModel
  | STORJ => Some StorjCoinModel
  | QASH => Some QashCoinModel
  | OTHER => None
  end.

(** [CoinFactory.createAllCoins()] *)
Definition createAllCoins : list CoinModel :=
  [BtcCoinModel; EthCoinModel; RepCoinModel; AntCoinModel; BatCoinModel;
   EosCoinModel; SaltCoinModel; CvcCoinModel; DntCoinModel; SntCoinModel;
   SubCoinModel; TrxCoinModel; OmgCoinModel; BtmCoinModel; DentCoinModel;
   PptCoinModel; MkrCoinModel; DgdCoinModel; QashCoinModel; EthosCoinModel;
   FunCoinModel; ZrxCoinModel; ReqCoinModel; BntCoinModel; IcnCoinModel;
   TenxCoinModel; StorjCoinModel; EnjCoinModel; McoCoinModel; EdgCoinModel;
   VetCoinModel; IcxCoinModel].

(** [CoinFactory.createSoonCoins()] *)
Definition createSoonCoins : list CoinModel :=
  [DcrCoinModel; LtcCoinModel; PartCoinModel; XvgCoinModel; VtcCoinModel;
   DashCoinModel; ViaCoinModel; BchCoinModel].

End CoinFactory.

(* ===================================================================== *)
(** ** The token preview chart *)
(* ===================================================================== *)

Module Chart.
Local Open Scope string_scope.

(** One sample of a history field: [price[0]] and [price[1]]. *)
Definition Sample : Type := (JsValue * JsValue)%type.

(** The object the quote service emits, read by field name; a field may
    be missing. *)
Definition History : Type := string -> option (list Sample).

(** [ChartSerie]; [serie_name] is the argument of [new Date(...)]. *)
Record ChartSerie : Type := {
  serie_name : JsValue;
  serie_value : JsValue
}.

Record ChartModel : Type := {
  name : string;
  series : list ChartSerie
}.

(** [TokenPreviewComponent.parseMap(obj, label, field)]; calling [map] on
    a missing field throws. *)
Definition parseMap (obj : History) (label field : string) : Err + ChartModel :=
  match obj field with
  | None => inl TypeError
  | Some prices =>
      inr {| name := label;
             series := map (fun price => {| serie_name := fst price;
                                            serie_value := snd price |}) prices |}
  end.

(** The function [getChartData] maps over the history observable. *)
Definition chart_of (e : History) : Err + list ChartModel :=
  match parseMap e "PRICE" "price" with
  | inl err => inl err
  | inr price =>
      match parseMap e "VOLUME" "volume" with
      | inl err => inl err
      | inr volume =>
          match parseMap e "MARKET CAP" "market_cap" with
          | inl err => inl err
          | inr market => inr [price; volume; market]
          end
      end
  end.

(** The fields of the component the chart code reads and writes; an
    element of [multi] is [None] where [undefined] was pushed. *)
Record Component : Type := {
  chartPrice : bool;
  chartVolume : bool;
  chartMarket : bool;
  multi : list (option ChartModel);
  contentLoaded : bool
}.

(** The subscriber of [updateChart], called with one emitted chart. *)
Definition updateChart_next (c : Component) (data : list ChartModel) : Component :=
  let multi : list (option ChartModel) := [] in
  let multi := if chartPrice c then (multi ++ [nth_error data 0])%list else multi in
  let multi := if chartVolume c then (multi ++ [nth_error data 1])%list else multi in
  let multi := if chartMarket c then (multi ++ [nth_error data 2])%list else multi in
  {| chartPrice := chartPrice c; chartVolume := chartVolume c;
     chartMarket := chartMarket c; multi := multi; contentLoaded := true |}.

(** One emission of the history observable through [getChartData]'s map
    and [updateChart]'s subscriber; an exception in the map ends the
    stream before the subscriber is called. *)
Definition on_history (c : Component) (e : History) : Component :=
  match chart_of e with
  | inl _ => c
  | inr data => updateChart_next c data
  end.

(** The labels of the flags that are set, in the order of the pushes. *)
Definition enabled_labels (c : Component) : list string :=
  ((if chartPrice c then ["PRICE"] else [])
   ++ (if chartVolume c then ["VOLUME"] else [])
   ++ (if chartMarket c then ["MARKET CAP"] else []))%list.

End Chart.

(* ===================================================================== *)
(** ** Sample data *)
(* ===================================================================== *)

Module Samples.
Import Invoker.
Local Open Scope string_scope.

(** A token ABI in which [transfer] occurs twice. *)
Definition balanceOf_entry : AbiEntry :=
  {| abi_name := Some "balanceOf"; abi_constant := Some true |}.
Definition transfer_entry : AbiEntry :=
  {| abi_name := Some "transfer"; abi_constant := Some false |}.
Definition transfer_view_entry : AbiEntry :=
  {| abi_name := Some "transfer"; abi_constant := Some true |}.

(** An engine bound to a token contract. *)
Definition token_engine : EthEngine :=
  {| abiConfiguration :=
       Some {| entries := [balanceOf_entry; transfer_entry];
               abi_defaultWallet := Some "0xwallet" |};
     configuration :=
       {| defaultWallet := Some "0xwallet"; contractAddress := Some "0xtoken" |};
     bin := Some {| code := Some "0x6080" |} |}.

Definition mined_receipt : Receipt :=
  {| transactionHash := "0xabc"; confNumber := None |}.

(** A node that answers every request. *)
Definition healthy_node : Web3 :=
  {| eth_getCode := fun _ => inr "0x6080";
     eth_estimateGas := fun _ _ => inr 21000;
     methods := fun _ _ _ => true;
     method_send := fun _ _ _ _ => SendMined mined_receipt 1;
     method_call := fun _ _ _ _ => inr "0x01" |}.

(** Call options in which the caller set nothing. *)
Definition no_options : GeneralParams :=
  {| gas := None; gasLimit := None; value := None; from := None |}.

(** The options after the invoker planned gas from the estimate 21000. *)
Definition planned_options : GeneralParams :=
  {| gas := Some 21000; gasLimit := Some 42000; value := None; from := None |}.

(** The address of a contract that is not the bound one. *)
Definition adhoc_address : option Address := Some "0xadhoc".

(** A node whose gas estimation fails. *)
Definition node_without_estimates : Web3 :=
  {| eth_getCode := fun _ => inr "0x6080";
     eth_estimateGas := fun _ _ => inl (NodeError "gas required exceeds allowance");
     methods := fun _ _ _ => true;
     method_send := fun _ _ _ _ => SendMined mined_receipt 1;
     method_call := fun _ _ _ _ => inr "0x01" |}.

(** An engine built without a bound ABI. *)
Definition unbound_engine : EthEngine :=
  {| abiConfiguration := None;
     configuration :=
       {| defaultWallet := Some "0xwallet"; contractAddress := None |};
     bin := None |}.

(** The contract object of [token_engine]. *)
Definition token_contract : Contract :=
  {| contract_abi := [balanceOf_entry; transfer_entry];
     contract_address := Some "0xtoken" |}.

Definition at_token (c : Contract) : bool :=
  match contract_address c with
  | Some a => String.eqb a "0xtoken"
  | None => false
  end.

(** A node on which the token has every method but [mint] and answers
    calls with a balance; contract objects at other addresses build any
    method, and calls to them revert. *)
Definition token_node : Web3 :=
  {| eth_getCode := fun _ => inr "0x6080";
     eth_estimateGas := fun _ _ => inr 21000;
     methods := fun c name _ =>
                  if at_token c then negb (String.eqb name "mint") else true;
     method_send := fun _ _ _ _ => SendMined mined_receipt 1;
     method_call := fun c _ _ _ =>
                      if at_token c then inr "0x2a"
                      else inl (NodeError "execution reverted") |}.

End Samples.

Module ScanSamples.
Import Scanner.
Local Open Scope string_scope.

(** The watched account, [web3.defaultAccount]. *)
Definition watched : JsAddress := JsString "0xme".

Definition incoming : Txn :=
  {| txn_from := "0xpeer"; txn_to := JsString "0xme"; txn_value := 5 |}.

Definition block_with_credit : Block :=
  {| timestamp := 1700000000; transactions := Some [incoming] |}.

Definition empty_block : Block :=
  {| timestamp := 1700000015; transactions := Some [] |}.

(** A scan of the heights 1, 2, 3 in which the node answers the oldest
    fetch in flight each time, and where it ends. *)
Definition three_blocks : ScanArgs := scan_args watched 50 (Some 1) (Some 3) true.

Definition oldest_first : Schedule :=
  [(0%nat, AnswerBlock empty_block); (0%nat, AnswerBlock block_with_credit);
   (0%nat, AnswerBlock empty_block)].

Definition three_blocks_end : Scan :=
  Eval vm_compute in
    match run three_blocks (scanBlockRange watched 50 (Some 1) (Some 3) true)
            oldest_first with
    | Some s => s
    | None => initial false 0
    end.

(** A scan of the single height 3 whose block arrives while the
    standard output is no terminal, and where it ends. *)
Definition one_block : ScanArgs := scan_args watched 50 (Some 3) (Some 3) true.

Definition unprinted : Schedule := [(0%nat, AnswerBlockNoRoom block_with_credit)].

Definition one_block_end : Scan :=
  Eval vm_compute in
    match run one_block (scanBlockRange watched 50 (Some 3) (Some 3) true)
            unprinted with
    | Some s => s
    | None => initial false 0
    end.

(** A scan by an engine whose configuration has [defaultWallet: null],
    over a block that holds the creation of a contract. *)
Definition creation : Txn :=
  {| txn_from := "0xdev"; txn_to := JsNull; txn_value := 0 |}.

Definition block_with_creation : Block :=
  {| timestamp := 1700000030; transactions := Some [creation] |}.

Definition no_wallet_end : Scan :=
  Eval vm_compute in
    match run (scan_args JsNull 50 (Some 3) (Some 3) false)
            (scanBlockRange JsNull 50 (Some 3) (Some 3) false)
            [(0%nat, AnswerBlock block_with_creation)] with
    | Some s => s
    | None => initial false 0
    end.

(** A scan with both heights omitted against a node at height 50. *)
Definition recent_blocks : ScanArgs := scan_args watched 50 None None true.

End ScanSamples.

Module MoreSamples.
Local Open Scope string_scope.

(** A keystore library that decrypts one keystore with one password. *)
Definition alice : Accounts.Account :=
  {| Accounts.address := "0xalice"; Accounts.privateKey := "0x01" |}.

Definition decrypt_alice (keystore password : string) : Err + Accounts.Account :=
  if String.eqb keystore "alice.json" && String.eqb password "secret"
  then inr alice else inl (NodeError "Key derivation failed").

Definition fresh_engine : Accounts.Engine :=
  Accounts.construct (Invoker.abiConfiguration Samples.token_engine)
    (Invoker.configuration Samples.token_engine)
    (Invoker.bin Samples.token_engine).

Definition engine_of_alice : Accounts.Engine :=
  Eval vm_compute in
    fst (Accounts.login decrypt_alice fresh_engine (Some "alice.json")
           (Some "secret")).

(** A bitcoin node that is down. *)
Definition rpc_config : RawRequest.Configuration :=
  {| RawRequest.protocol := "http"; RawRequest.user := "rpc";
     RawRequest.pass := "pw"; RawRequest.host := "localhost";
     RawRequest.port := "18332" |}.

Definition node_down : RawRequest.Post :=
  fun _ _ => inl (NodeError "ECONNREFUSED").

(** A bitcoin node whose responses carry no [data]. *)
Definition node_without_data : RawRequest.Post :=
  fun _ _ => inr {| RawRequest.data := None |}.

(** The body [getRawChangeAddress] posts to the sample node. *)
Definition changeaddress_body : RawRequest.Body :=
  {| RawRequest.method := "getrawchangeaddress"; RawRequest.rpcuser := "rpc";
     RawRequest.rpcpassword := "pw"; RawRequest.params := RawRequest.NoParams |}.

(** A price history of two days. *)
Definition two_days : Chart.History :=
  fun field =>
    if String.eqb field "price" then Some [("1", "10.5"); ("2", "11")]
    else if String.eqb field "volume" then Some [("1", "300"); ("2", "280")]
    else if String.eqb field "market_cap" then Some [("1", "9000"); ("2", "9100")]
    else None.

(** The component as it is constructed: only the price chart is on. *)
Definition new_component : Chart.Component :=
  {| Chart.chartPrice := true; Chart.chartVolume := false;
     Chart.chartMarket := false; Chart.multi := [];
     Chart.contentLoaded := false |}.

End MoreSamples.

(* ===================================================================== *)
(** ** Facts about the contract invoker *)
(* ===================================================================== *)

Module InvokerFacts.
Import Invoker Samples.

(** Symbolic execution of [callFunction]: unfold the monad, then split on
    the innermost undecided test until the request log is explicit. *)
Ltac unfold_invoker :=
  unfold callFunction, callFunction_body, dispatch, getContractCode,
    await, deref, request, read_options, update_options, bind, ret, throw in *.

Ltac reduce_invoker :=
  cbn beta iota zeta delta
    [log options requests generalParams_after settled fst snd app] in *.

Ltac case_scrutinee :=
  match goal with
  | |- context [match ?x with _ => _ end] =>
      lazymatch x with
      | context [match _ with _ => _ end] => fail
      | _ => destruct x eqn:?
      end
  | H : context [match ?x with _ => _ end] |- _ =>
      lazymatch x with
      | context [match _ with _ => _ end] => fail
      | _ => destruct x eqn:?
      end
  end; reduce_invoker.

Ltac run_invoker := unfold_invoker; reduce_invoker; repeat case_scrutinee.

(** Membership in an explicit log, one entry at a time. *)
Ltac pick_request :=
  repeat match goal with
         | H : In _ (_ :: _) |- _ => destruct H as [H | H]; [subst | ]
         | H : In _ [] |- _ => destruct H
         | H : dispatched_options _ = Some _ |- _ =>
             cbn in H; first [discriminate H | injection H as H; subst]
         end.

Lemma name_is_true (name : string) (e : AbiEntry) :
  name_is name e = true <-> abi_name e = Some name.
Proof.
  unfold name_is. destruct (abi_name e) as [n|].
  - rewrite String.eqb_eq. split; congruence.
  - split; discriminate.
Qed.

Lemma loop_skips_other_names (name : string) (pre rest : list AbiEntry) :
  Forall (fun x => abi_name x <> Some name) pre ->
  isMethodPayable_loop name (pre ++ rest) = isMethodPayable_loop name rest.
Proof.
  induction 1 as [|x pre Hx _ IH]; [reflexivity|].
  cbn. destruct (name_is name x) eqn:E; [|exact IH].
  apply name_is_true in E. contradiction.
Qed.

Lemma loop_absent (name : string) (abi : list AbiEntry) :
  Forall (fun x => abi_name x <> Some name) abi ->
  isMethodPayable_loop name abi = false.
Proof.
  intros H. rewrite <- (app_nil_r abi).
  rewrite loop_skips_other_names by assumption. reflexivity.
Qed.

Lemma not_payable_no_estimate this w3 name params gp conf abi addr :
  isMethodPayable name (lookup_abi this abi) = false ->
  count is_estimate (requests (callFunction this w3 name params gp conf abi addr)) = 0%nat.
Proof.
  intros Hp. unfold_invoker. rewrite Hp. reduce_invoker.
  repeat case_scrutinee; reflexivity.
Qed.

(** C6. The payability check walks the ABI entries in order; the first
    entry whose name equals the method name decides (payable iff it is
    not marked constant), later entries of that name are not looked at;
    a name that matches no entry, or a missing ABI, is non-payable, and
    [callFunction] then makes no gas-estimation request. *)
Theorem isMethodPayable_first_match_decides (name : string) :
  (forall pre e post,
      Forall (fun x => abi_name x <> Some name) pre ->
      abi_name e = Some name ->
      isMethodPayable name (Some (pre ++ e :: post))
      = negb (truthy_bool (abi_constant e)))
  /\ (forall abi,
         Forall (fun x => abi_name x <> Some name) abi ->
         isMethodPayable name (Some abi) = false)
  /\ isMethodPayable name None = false
  /\ (forall this w3 params gp conf abi addr,
         (forall l, lookup_abi this abi = Some l ->
                    Forall (fun x => abi_name x <> Some name) l) ->
         count is_estimate
           (requests (callFunction this w3 name params gp conf abi addr)) = 0%nat).
Proof.
  repeat split.
  - intros pre e post Hpre He. cbn [isMethodPayable].
    rewrite loop_skips_other_names by assumption. cbn.
    apply name_is_true in He. rewrite He. reflexivity.
  - intros abi H. apply loop_absent, H.
  - intros this w3 params gp conf abi addr H.
    apply not_payable_no_estimate.
    destruct (lookup_abi this abi) as [l|] eqn:E; [|reflexivity].
    apply loop_absent, H. reflexivity.
Qed.

Lemma isMethodPayable_first_match_decides_witness :
  isMethodPayable "transfer"
    (Some ([balanceOf_entry] ++ transfer_entry :: [transfer_view_entry])) = true
  /\ isMethodPayable "approve" (Some [balanceOf_entry; transfer_entry]) = false.
Proof.
  split.
  - apply (proj1 (isMethodPayable_first_match_decides "transfer")
             [balanceOf_entry] transfer_entry [transfer_view_entry]).
    + constructor; [discriminate | constructor].
    + reflexivity.
  - apply (proj1 (proj2 (isMethodPayable_first_match_decides "approve"))).
    repeat constructor; discriminate.
Defined.

(** C5. When the method is payable and the caller supplied no [gas], at
    most one gas-estimation request is made, and every invocation that is
    dispatched has made exactly one: the dispatched options carry the
    node's estimate as [gas] and twice the estimate as [gasLimit]. *)
Theorem payable_call_estimates_gas_once this w3 name params gp conf abi addr :
  isMethodPayable name (lookup_abi this abi) = true ->
  gas gp = None ->
  let r := callFunction this w3 name params gp conf abi addr in
  (count is_estimate (requests r) <= 1)%nat /\
  forall c o,
    In c (requests r) -> dispatched_options c = Some o ->
    count is_estimate (requests r) = 1%nat /\
    exists data to ets,
      In (EstimateGas data to) (requests r) /\
      eth_estimateGas w3 data to = inr ets /\
      gas o = Some ets /\ gasLimit o = Some (2 * ets).
Proof.
  intros Hp Hg r. subst r. destruct gp as [g gl v f]. cbn in Hg. subst g.
  unfold_invoker. rewrite Hp. reduce_invoker. cbn [gas].
  repeat case_scrutinee.
  all: try match goal with H : gas _ = Some _ |- _ => discriminate H end.
  all: split; [cbn; lia | intros c o Hin Hd; pick_request].
  all: split; [reflexivity | ].
  all: match goal with
       | H : eth_estimateGas _ ?d ?t = inr ?z |- _ =>
           exists d, t, z; cbn [In gas gasLimit set_gas set_gasLimit];
           rewrite (Z.mul_comm 2 z); intuition
       end.
Qed.

Lemma payable_call_estimates_gas_once_witness :
  let r := callFunction token_engine healthy_node "transfer" [] no_options
             (Some RECEIPT) None None in
  count is_estimate (requests r) = 1%nat /\
  exists data to ets,
    In (EstimateGas data to) (requests r) /\
    eth_estimateGas healthy_node data to = inr ets /\
    gas planned_options = Some ets /\ gasLimit planned_options = Some (2 * ets).
Proof.
  apply (proj2 (payable_call_estimates_gas_once token_engine healthy_node
                  "transfer" [] no_options (Some RECEIPT) None None
                  eq_refl eq_refl)
           (Send "transfer" [] planned_options) planned_options).
  - cbn. right. left. reflexivity.
  - reflexivity.
Defined.

(** C2, as the code has it.  An invocation in [STATIC] mode never
    broadcasts and never resolves with a receipt.  When it gets as far as
    dispatching (the contract object is built and has the method, and the
    node answered the preparatory requests), it performs exactly one
    read-only call, its last request and only dispatch, on that contract
    and with the options object as it then is, and settles with the
    call's outcome: it resolves with the return value, or rejects with
    the call's error.  Gas estimation does not look at the mode: no
    estimate is requested when the method is non-payable or the caller
    supplied [gas]; when the method is payable and no [gas] was supplied,
    one estimate precedes the call, which carries it as [gas] and twice
    it as [gasLimit]. *)
Theorem static_call_never_broadcasts this w3 name params gp abi addr :
  let r := callFunction this w3 name params gp (Some STATIC) abi addr in
  count is_send (requests r) = 0%nat
  /\ (count is_call (requests r) <= 1)%nat
  /\ (count is_estimate (requests r) <= 1)%nat
  /\ (isMethodPayable name (lookup_abi this abi) = false \/ gas gp <> None ->
      count is_estimate (requests r) = 0%nat /\ generalParams_after r = gp)
  /\ (forall rec, settled r <> ResolvedReceipt rec)
  /\ (forall v, settled r = ResolvedValue v ->
        exists contract prep,
          target_contract this abi addr = Some contract
          /\ requests r = prep ++ [Call name params (generalParams_after r)]
          /\ method_call w3 contract name params (generalParams_after r) = inr v)
  /\ (forall contract,
        target_contract this abi addr = Some contract ->
        methods w3 contract name params = true ->
        (forall a e, In (GetCode a) (requests r) -> eth_getCode w3 a <> inl e) ->
        (forall data to e, In (EstimateGas data to) (requests r) ->
                           eth_estimateGas w3 data to <> inl e) ->
        exists prep,
          requests r = prep ++ [Call name params (generalParams_after r)]
          /\ count is_dispatch prep = 0%nat
          /\ settled r
             = match method_call w3 contract name params (generalParams_after r) with
               | inr v => ResolvedValue v
               | inl e => Rejected e
               end
          /\ (isMethodPayable name (lookup_abi this abi) = true ->
              gas gp = None ->
              exists data to ets,
                In (EstimateGas data to) prep
                /\ count is_estimate prep = 1%nat
                /\ eth_estimateGas w3 data to = inr ets
                /\ generalParams_after r = set_gasLimit (ets * 2) (set_gas ets gp))).
Proof.
  intros r. subst r. unfold target_contract. unfold_invoker. cbn [EthConfirmation_value].
  change (2 =? 0) with false. change (2 =? 1) with false.
  change (2 =? 2) with true. reduce_invoker.
  repeat case_scrutinee.
  all: split; [reflexivity|]; split; [cbn; lia|]; split; [cbn; lia|].
  all: split; [intros [H | H]; first [discriminate H | exfalso; apply H; reflexivity | split; reflexivity] | ].
  all: split; [discriminate|].
  all: split.
  all: try (intros v Hv; discriminate Hv).
  all: try (intros v Hv; injection Hv as <-;
            match goal with
            | |- exists contract prep, Some ?c = _ /\ _ => exists c
            end;
            match goal with
            | |- exists prep, _ /\ [?x; ?y; _] = _ /\ _ => exists [x; y]
            | |- exists prep, _ /\ [?x; _] = _ /\ _ => exists [x]
            | |- exists prep, _ /\ [_] = _ /\ _ => exists []
            end; repeat split; assumption).
  all: intros contract Hc Hm Hcode Hest; try discriminate Hc; injection Hc as <-.
  all: try congruence.
  all: try (exfalso; eapply Hcode; [left; reflexivity | eassumption]).
  all: try (exfalso; eapply Hest; [cbn; eauto | eassumption]).
  all: match goal with
       | |- exists prep, [?x; ?y; _] = _ /\ _ => exists [x; y]
       | |- exists prep, [?x; _] = _ /\ _ => exists [x]
       | |- exists prep, [_] = _ /\ _ => exists []
       end.
  all: split; [reflexivity|]; split; [reflexivity|].
  all: split; [match goal with H : method_call _ _ _ _ _ = _ |- _ => rewrite H end; reflexivity|].
  all: intros Hp Hg; try discriminate Hp; try discriminate Hg.
  all: match goal with
       | H : eth_estimateGas _ ?d ?t = inr ?z |- _ =>
           exists d, t, z; split; [cbn; tauto|]; split; [reflexivity|];
           split; [exact H | reflexivity]
       end.
Qed.

Lemma static_call_never_broadcasts_witness :
  let r := callFunction token_engine token_node "transfer" [] no_options
             (Some STATIC) None None in
  exists prep,
    requests r = prep ++ [Call "transfer" [] (generalParams_after r)]
    /\ count is_dispatch prep = 0%nat
    /\ settled r
       = match method_call token_node token_contract "transfer" []
                 (generalParams_after r) with
         | inr v => ResolvedValue v
         | inl e => Rejected e
         end
    /\ (isMethodPayable "transfer" (lookup_abi token_engine None) = true ->
        gas no_options = None ->
        exists data to ets,
          In (EstimateGas data to) prep
          /\ count is_estimate prep = 1%nat
          /\ eth_estimateGas token_node data to = inr ets
          /\ generalParams_after r
             = set_gasLimit (ets * 2) (set_gas ets no_options)).
Proof.
  apply (proj2 (proj2 (proj2 (proj2 (proj2 (proj2
    (static_call_never_broadcasts token_engine token_node "transfer" []
       no_options None None)))))) token_contract).
  - reflexivity.
  - reflexivity.
  - intros a e _. discriminate.
  - intros data to e _. discriminate.
Defined.

(** C2 as stated fails: a [STATIC] invocation of a payable method without
    caller-supplied [gas] asks the node for a gas estimate before the
    read-only call. *)
Lemma static_call_of_payable_method_estimates_gas :
  requests (callFunction token_engine healthy_node "transfer" [] no_options
              (Some STATIC) None None)
  = [EstimateGas (Some "0x6080"%string) (Some "0xwallet"%string);
     Call "transfer" [] planned_options]
  /\ count is_estimate
       (requests (callFunction token_engine healthy_node "transfer" [] no_options
                    (Some STATIC) None None)) <> 0%nat.
Proof. split; [reflexivity | discriminate]. Qed.



(** *** Further facts about [callFunction] *)

(** The options object is written only by a successful gas estimate: for
    a non-payable method, or when the caller supplied [gas], the object
    comes back as it was given, and what is dispatched carries it
    unchanged. *)
Theorem options_untouched_without_estimate this w3 name params gp conf abi addr :
  isMethodPayable name (lookup_abi this abi) = false \/ gas gp <> None ->
  let r := callFunction this w3 name params gp conf abi addr in
  generalParams_after r = gp
  /\ forall c o, In c (requests r) -> dispatched_options c = Some o -> o = gp.
Proof.
  intros Hno r. subst r. unfold_invoker. reduce_invoker.
  repeat case_scrutinee.
  all: try (destruct Hno as [Hno | Hno]; [congruence | contradiction]).
  all: split; [reflexivity | intros c o Hin Hd; pick_request; reflexivity].
Qed.

Lemma options_untouched_without_estimate_witness :
  generalParams_after
    (callFunction token_engine healthy_node "balanceOf" [] no_options
       (Some STATIC) None None) = no_options
  /\ forall c o,
       In c (requests (callFunction token_engine healthy_node "balanceOf" []
                         no_options (Some STATIC) None None)) ->
       dispatched_options c = Some o -> o = no_options.
Proof.
  apply (options_untouched_without_estimate token_engine healthy_node
           "balanceOf" [] no_options (Some STATIC) None None).
  left. reflexivity.
Defined.

(** In [CONFIRMATION] mode nothing is called read-only and at most one
    transaction is sent; a receipt the promise resolves with is the one
    the node reported for that transaction, with the confirmation number
    attached as [confNumber]. *)
Theorem confirmation_mode_attaches_number this w3 name params gp abi addr :
  let r := callFunction this w3 name params gp (Some CONFIRMATION) abi addr in
  count is_call (requests r) = 0%nat
  /\ (count is_send (requests r) <= 1)%nat
  /\ (forall v, settled r <> ResolvedValue v)
  /\ (forall rec, settled r = ResolvedReceipt rec ->
        exists contract o receipt n,
          In (Send name params o) (requests r)
          /\ method_send w3 contract name params o = SendMined receipt n
          /\ rec = set_confNumber n receipt
          /\ confNumber rec = Some n).
Proof.
  intros r. subst r. unfold_invoker. cbn [EthConfirmation_value].
  change (1 =? 0) with false. change (1 =? 1) with true. reduce_invoker.
  repeat case_scrutinee.
  all: split; [reflexivity|]; split; [cbn; lia|]; split; [discriminate|].
  all: intros rec0 Hrec; try discriminate Hrec; injection Hrec as <-.
  all: match goal with
       | H : method_send _ ?c _ _ ?o = SendMined ?receipt ?n |- _ =>
           exists c, o, receipt, n; cbn [In]; intuition
       end.
Qed.

Lemma confirmation_mode_attaches_number_witness :
  exists contract o receipt n,
    In (Send "transfer" [] o)
      (requests (callFunction token_engine healthy_node "transfer" []
                   no_options (Some CONFIRMATION) None None))
    /\ method_send healthy_node contract "transfer" [] o = SendMined receipt n
    /\ set_confNumber 1 mined_receipt = set_confNumber n receipt
    /\ confNumber (set_confNumber 1 mined_receipt) = Some n.
Proof.
  apply (proj2 (proj2 (proj2
    (confirmation_mode_attaches_number token_engine healthy_node "transfer" []
       no_options None None)))).
  reflexivity.
Defined.

(** The deployed bytecode is asked of the node only for an ad-hoc
    contract (an [abi] and a non-empty [contractAddress] are passed)
    whose method is payable; it is then the first request, made once and
    for that address.  For the bound contract no bytecode is fetched. *)
Theorem code_fetched_only_for_payable_adhoc_contract
  this w3 name params gp conf abi addr :
  let r := callFunction this w3 name params gp conf abi addr in
  (count is_getCode (requests r) <= 1)%nat
  /\ (forall a, In (GetCode a) (requests r) ->
        addr = Some a /\ truthy_string addr = true
        /\ (exists l, abi = Some l)
        /\ isMethodPayable name abi = true
        /\ hd_error (requests r) = Some (GetCode a))
  /\ (abi = None \/ truthy_string addr = false ->
      count is_getCode (requests r) = 0%nat).
Proof.
  intros r. subst r. unfold_invoker. reduce_invoker.
  repeat case_scrutinee.
  all: split; [cbn; lia|]; split.
  all: try (intros [H | H]; first [discriminate H | reflexivity]).
  all: try (intros a0 Hin; pick_request; try discriminate;
            try match goal with
                | H : GetCode _ = GetCode _ |- _ => injection H as <-
                end;
            cbn [lookup_abi] in *; repeat split; eauto; fail).
Qed.

Lemma code_fetched_only_for_payable_adhoc_contract_witness :
  adhoc_address = Some "0xadhoc"%string
  /\ truthy_string adhoc_address = true
  /\ (exists l, Some [transfer_entry] = Some l)
  /\ isMethodPayable "transfer" (Some [transfer_entry]) = true
  /\ hd_error
       (requests (callFunction token_engine healthy_node "transfer" []
                    no_options None (Some [transfer_entry]) adhoc_address))
     = Some (GetCode "0xadhoc"%string).
Proof.
  apply (proj1 (proj2
    (code_fetched_only_for_payable_adhoc_contract token_engine healthy_node
       "transfer" [] no_options None (Some [transfer_entry]) adhoc_address))).
  cbn. left. reflexivity.
Defined.

(** A failure of the node while the call is prepared (fetching the
    bytecode, estimating gas) rejects the promise with that error; nothing
    is dispatched and the options object is left as it was given. *)
Theorem preparation_failure_rejects this w3 name params gp conf abi addr e :
  let r := callFunction this w3 name params gp conf abi addr in
  (exists a, In (GetCode a) (requests r) /\ eth_getCode w3 a = inl e)
  \/ (exists data to,
         In (EstimateGas data to) (requests r)
         /\ eth_estimateGas w3 data to = inl e) ->
  settled r = Rejected e
  /\ count is_dispatch (requests r) = 0%nat
  /\ generalParams_after r = gp.
Proof.
  intros r. subst r. unfold_invoker. reduce_invoker.
  repeat case_scrutinee.
  all: intros [(a0 & Hin & Hf) | (d & t & Hin & Hf)]; pick_request;
    try discriminate;
    repeat match goal with
           | H : GetCode _ = GetCode _ |- _ => injection H as <-
           | H : EstimateGas _ _ = EstimateGas _ _ |- _ => injection H as <- <-
           end;
    try congruence.
  all: repeat split; congruence.
Qed.

Lemma preparation_failure_rejects_witness :
  let r := callFunction token_engine node_without_estimates "transfer" []
             no_options None None None in
  settled r = Rejected (NodeError "gas required exceeds allowance")
  /\ count is_dispatch (requests r) = 0%nat
  /\ generalParams_after r = no_options.
Proof.
  apply (preparation_failure_rejects token_engine node_without_estimates
           "transfer" [] no_options None None None).
  right. exists (Some "0x6080"%string), (Some "0xwallet"%string).
  split; [cbn; left; reflexivity | reflexivity].
Defined.

(** An engine built without a bound ABI, or without the compiled
    contract, cannot call the bound contract: unless both an [abi] and a
    non-empty [contractAddress] are passed, the promise rejects with a
    [TypeError] before any request reaches the node. *)
Theorem unbound_engine_rejects_bound_calls this w3 name params gp conf abi addr :
  abi = None \/ truthy_string addr = false ->
  abiConfiguration this = None \/ bin this = None ->
  let r := callFunction this w3 name params gp conf abi addr in
  requests r = [] /\ settled r = Rejected TypeError
  /\ generalParams_after r = gp.
Proof.
  intros Hadhoc Hunbound r. subst r. unfold_invoker. reduce_invoker.
  repeat case_scrutinee.
  all: try (destruct Hadhoc as [H | H]; congruence).
  all: try (destruct Hunbound as [H | H]; congruence).
  all: repeat split.
Qed.

Lemma unbound_engine_rejects_bound_calls_witness :
  let r := callFunction unbound_engine healthy_node "transfer" [] no_options
             None None None in
  requests r = [] /\ settled r = Rejected TypeError
  /\ generalParams_after r = no_options.
Proof.
  apply (unbound_engine_rejects_bound_calls unbound_engine healthy_node
           "transfer" [] no_options None None None);
    left; reflexivity.
Defined.

(** When the contract object [callFunction] builds has no method of
    the name for the arguments, building the method throws inside the
    [try]: nothing is sent or called and the promise is rejected, with
    the [TypeError] of the missing method unless the preparation had
    failed before; what contract objects at other addresses offer does
    not matter. *)
Theorem missing_method_is_rejected
  this w3 name params gp conf abi addr contract :
  target_contract this abi addr = Some contract ->
  methods w3 contract name params = false ->
  let r := callFunction this w3 name params gp conf abi addr in
  count is_dispatch (requests r) = 0%nat
  /\ (exists e, settled r = Rejected e)
  /\ ((forall a e, In (GetCode a) (requests r) -> eth_getCode w3 a <> inl e) ->
      (forall data to e, In (EstimateGas data to) (requests r) ->
                         eth_estimateGas w3 data to <> inl e) ->
      settled r = Rejected TypeError).
Proof.
  intros Hc Hm r. subst r. revert Hc Hm. unfold target_contract.
  unfold_invoker. reduce_invoker.
  repeat case_scrutinee.
  all: intros Hc Hm; try discriminate Hc; injection Hc as <-.
  all: try congruence.
  all: split; [reflexivity|]; split; [eexists; reflexivity|].
  all: intros Hcode Hest; try reflexivity.
  all: try (exfalso; eapply Hcode; [left; reflexivity | eassumption]).
  all: try (exfalso; eapply Hest; [cbn; eauto | eassumption]).
Qed.

Lemma missing_method_is_rejected_witness :
  let r := callFunction token_engine token_node "mint" [] no_options
             None None None in
  count is_dispatch (requests r) = 0%nat
  /\ (exists e, settled r = Rejected e)
  /\ ((forall a e, In (GetCode a) (requests r) ->
                   eth_getCode token_node a <> inl e) ->
      (forall data to e, In (EstimateGas data to) (requests r) ->
                         eth_estimateGas token_node data to <> inl e) ->
      settled r = Rejected TypeError).
Proof.
  apply (missing_method_is_rejected token_engine token_node "mint" []
           no_options None None None token_contract).
  - reflexivity.
  - reflexivity.
Defined.

(** The requests of one invocation come in a fixed order: at most one
    bytecode fetch, then at most one gas estimate, then at most one
    dispatch, which is the last request. *)
Theorem requests_are_fetch_estimate_dispatch this w3 name params gp conf abi addr :
  let r := callFunction this w3 name params gp conf abi addr in
  exists fetch estimate sent,
    requests r = fetch ++ estimate ++ sent
    /\ (fetch = [] \/ exists a, fetch = [GetCode a])
    /\ (estimate = [] \/ exists data to, estimate = [EstimateGas data to])
    /\ (sent = [] \/ exists c, sent = [c] /\ is_dispatch c = true).
Proof.
  intros r. subst r. unfold_invoker. reduce_invoker.
  repeat case_scrutinee.
  all: match goal with
       | |- exists _ _ _, [] = _ /\ _ => exists [], [], []
       | |- exists _ _ _, [GetCode ?a] = _ /\ _ => exists [GetCode a], [], []
       | |- exists _ _ _, [EstimateGas ?d ?t] = _ /\ _ =>
           exists [], [EstimateGas d t], []
       | |- exists _ _ _, [GetCode ?a; EstimateGas ?d ?t] = _ /\ _ =>
           exists [GetCode a], [EstimateGas d t], []
       | |- exists _ _ _, [GetCode ?a; EstimateGas ?d ?t; ?c] = _ /\ _ =>
           exists [GetCode a], [EstimateGas d t], [c]
       | |- exists _ _ _, [GetCode ?a; ?c] = _ /\ _ =>
           exists [GetCode a], [], [c]
       | |- exists _ _ _, [EstimateGas ?d ?t; ?c] = _ /\ _ =>
           exists [], [EstimateGas d t], [c]
       | |- exists _ _ _, [?c] = _ /\ _ => exists [], [], [c]
       end.
  all: split; [reflexivity|]; repeat split; eauto.
Qed.

(** The gas plan stays in the caller's options object.  After an
    invocation of a payable method without [gas] has been dispatched, any
    later invocation made with the same object, of whatever method,
    contract or mode, asks for no estimate and is dispatched with the
    first invocation's [gas] and [gasLimit]. *)
Theorem gas_plan_is_reused_by_later_calls
  this w3 name params gp conf abi addr c o
  this' w3' name' params' conf' abi' addr' :
  isMethodPayable name (lookup_abi this abi) = true ->
  gas gp = None ->
  let r := callFunction this w3 name params gp conf abi addr in
  In c (requests r) -> dispatched_options c = Some o ->
  let r' := callFunction this' w3' name' params' (generalParams_after r)
              conf' abi' addr' in
  generalParams_after r = o
  /\ count is_estimate (requests r') = 0%nat
  /\ generalParams_after r' = o
  /\ forall c' o', In c' (requests r') -> dispatched_options c' = Some o' ->
                   o' = o.
Proof.
  intros Hp Hg r Hin Hd r'.
  assert (Hafter : generalParams_after r = o /\ gas o <> None).
  { subst r r'. clear - Hp Hg Hin Hd. destruct gp as [g gl v f]. cbn in Hg.
    subst g. revert Hin. unfold_invoker. rewrite Hp. reduce_invoker.
    repeat case_scrutinee.
    all: try match goal with H : gas _ = Some _ |- _ => discriminate H end.
    all: intros Hin; pick_request; (split; [reflexivity | discriminate]). }
  destruct Hafter as [Hafter Hgas]. split; [exact Hafter|].
  subst r'. rewrite Hafter. clear - Hgas.
  unfold_invoker. reduce_invoker. repeat case_scrutinee.
  all: try contradiction.
  all: split; [reflexivity|]; split; [reflexivity|].
  all: intros c' o' Hin' Hd'; pick_request; reflexivity.
Qed.

Lemma gas_plan_is_reused_by_later_calls_witness :
  let r := callFunction token_engine healthy_node "transfer" [] no_options
             None None None in
  let r' := callFunction token_engine healthy_node "balanceOf" []
              (generalParams_after r) (Some STATIC) None None in
  generalParams_after r = planned_options
  /\ count is_estimate (requests r') = 0%nat
  /\ generalParams_after r' = planned_options
  /\ forall c' o', In c' (requests r') -> dispatched_options c' = Some o' ->
                   o' = planned_options.
Proof.
  apply (gas_plan_is_reused_by_later_calls
           token_engine healthy_node "transfer" [] no_options None None None
           (Send "transfer" [] planned_options) planned_options
           token_engine healthy_node "balanceOf" [] (Some STATIC) None None).
  - reflexivity.
  - reflexivity.
  - cbn. right. left. reflexivity.
  - reflexivity.
Defined.

End InvokerFacts.

(* ===================================================================== *)
(** ** Facts about the block range scanner *)
(* ===================================================================== *)

Module ScannerFacts.
Import Scanner ScanSamples.

(** *** Lists of heights and of fetches *)

Lemma heights_from_snoc (start : Z) (n : nat) :
  heights_from start (S n) = heights_from start n ++ [start + Z.of_nat n].
Proof.
  revert start. induction n as [|n IH]; intros start.
  - cbn. f_equal. lia.
  - change (heights_from start (S (S n)))
      with (start :: heights_from (start + 1) (S n)).
    rewrite IH. cbn [heights_from app]. do 3 f_equal. lia.
Qed.

Lemma heights_from_length (start : Z) (n : nat) :
  List.length (heights_from start n) = n.
Proof. revert start. induction n; intros; cbn; [|rewrite IHn]; reflexivity. Qed.

Lemma heights_from_In (start : Z) (n : nat) (h : Z) :
  In h (heights_from start n) <-> start <= h < start + Z.of_nat n.
Proof.
  revert start. induction n as [|n IH]; intros start; cbn [heights_from In].
  - lia.
  - rewrite IH. lia.
Qed.

Lemma heights_from_sorted (start : Z) (n : nat) :
  StronglySorted Z.lt (heights_from start n).
Proof.
  revert start. induction n as [|n IH]; intros start; cbn; constructor.
  - apply IH.
  - apply Forall_forall. intros h Hh. apply heights_from_In in Hh. lia.
Qed.

Lemma heights_from_NoDup (start : Z) (n : nat) : NoDup (heights_from start n).
Proof.
  revert start. induction n as [|n IH]; intros start; cbn; constructor.
  - rewrite heights_from_In. lia.
  - apply IH.
Qed.

Lemma fetches_app (l1 l2 : list Request) :
  fetches (l1 ++ l2) = fetches l1 ++ fetches l2.
Proof.
  induction l1 as [|[|f] l1 IH]; cbn; [reflexivity | exact IH | now rewrite IH].
Qed.

Lemma remove_nth_length {A} (i : nat) (l : list A) (x : A) :
  nth_error l i = Some x ->
  List.length l = S (List.length (remove_nth i l)).
Proof.
  revert i. induction l as [|y l IH]; intros [|i] H; cbn in *;
    try discriminate; [reflexivity | now rewrite (IH i H)].
Qed.

(** Two fetches of one list whose heights are pairwise distinct and that
    have the same height are the same fetch. *)
Lemma same_height_same_fetch (l : list Fetch) (f g : Fetch) :
  NoDup (map height l) -> In f l -> In g l -> height f = height g -> f = g.
Proof.
  induction l as [|x l IH]; cbn; intros Hnd Hf Hg Heq; [contradiction|].
  inversion Hnd as [|? ? Hx Hnd']; subst.
  destruct Hf as [-> | Hf], Hg as [-> | Hg]; auto.
  - exfalso. apply Hx. rewrite Heq. now apply in_map.
  - exfalso. apply Hx. rewrite <- Heq. now apply in_map.
Qed.

(** *** What the closures leave untouched *)

(** [s'] differs from [s] in [results] at most. *)
Definition only_results (s s' : Scan) : Prop :=
  requests s' = requests s /\ blockNumber s' = blockNumber s /\
  gotError s' = gotError s /\ numThreads s' = numThreads s /\
  inFlight s' = inFlight s /\ promise s' = promise s /\
  callbackCalls s' = callbackCalls s.

Lemma scanTransactionCallback_only_results a txn block s :
  only_results s (scanTransactionCallback a txn block s).
Proof.
  unfold scanTransactionCallback, only_results.
  destruct (strict_eq (txn_to txn) (defaultAccount a));
    [|destruct (strict_eq (JsString (txn_from txn)) (defaultAccount a))];
    cbn; repeat split.
Qed.

Lemma scanBlockCallback_only_results a block s :
  only_results s (scanBlockCallback a block s).
Proof.
  unfold scanBlockCallback.
  destruct (transactions block) as [txns|]; [|repeat split].
  revert s. induction txns as [|t txns IH]; intros s; cbn [fold_left];
    [repeat split|].
  specialize (IH (scanTransactionCallback a t block s)).
  pose proof (scanTransactionCallback_only_results a t block s) as H.
  unfold only_results in *. intuition congruence.
Qed.

(** *** The two ways through [asyncScanNextBlock] *)

Lemma asyncScanNextBlock_claims a tty w s :
  gotError s = false -> blockNumber s <= stoppingBlock a ->
  asyncScanNextBlock a tty w s
  = let f := {| worker := w; height := blockNumber s |} in
    set_inFlight (inFlight s ++ [f])
      (set_requests (requests s ++ [GetBlock f])
         (set_blockNumber (blockNumber s + 1) s)).
Proof.
  intros He Hb. unfold asyncScanNextBlock. rewrite He.
  destruct (blockNumber s >? stoppingBlock a) eqn:E; [lia | reflexivity].
Qed.

Lemma asyncScanNextBlock_exits a tty w s :
  gotError s = true \/ stoppingBlock a < blockNumber s ->
  asyncScanNextBlock a tty w s = exitThread a tty s.
Proof.
  intros H. unfold asyncScanNextBlock.
  destruct (gotError s); [reflexivity|].
  destruct (blockNumber s >? stoppingBlock a) eqn:E; [reflexivity|].
  destruct H as [H|H]; [discriminate | lia].
Qed.

(** Reduce reads of the shared variables after writes. *)
Ltac fields :=
  cbn [requests blockNumber gotError numThreads results inFlight promise
       callbackCalls set_requests set_blockNumber set_gotError set_numThreads
       set_results set_inFlight set_promise set_callbackCalls] in *.

Lemma exitThread_frame a tty s :
  requests (exitThread a tty s) = requests s /\
  blockNumber (exitThread a tty s) = blockNumber s /\
  gotError (exitThread a tty s) = gotError s /\
  numThreads (exitThread a tty s) = numThreads s - 1 /\
  results (exitThread a tty s) = results s /\
  inFlight (exitThread a tty s) = inFlight s.
Proof.
  unfold exitThread, resolve. fields.
  destruct (numThreads s - 1 =? 0); [destruct tty; [destruct (callback a)|]|];
    fields; destruct (promise s); fields; repeat split.
Qed.

Lemma exitThread_calls a tty s :
  callbackCalls (exitThread a tty s)
  = match tty with
    | LineFits =>
        if (numThreads s - 1 =? 0) && callback a
        then callbackCalls s ++ [(gotError s, stoppingBlock a)]
        else callbackCalls s
    | NoRoom => callbackCalls s
    end.
Proof.
  unfold exitThread, resolve. fields.
  destruct tty;
    (destruct (numThreads s - 1 =? 0); [try destruct (callback a)|]);
    fields; try destruct (promise s); reflexivity.
Qed.

Lemma exitThread_calls_cases a tty s :
  callbackCalls (exitThread a tty s) = callbackCalls s
  \/ (numThreads s - 1 = 0 /\ callback a = true /\ tty = LineFits
      /\ callbackCalls (exitThread a tty s)
         = callbackCalls s ++ [(gotError s, stoppingBlock a)]).
Proof.
  rewrite exitThread_calls. destruct tty; [|now left].
  destruct (numThreads s - 1 =? 0) eqn:E; [|now left].
  destruct (callback a); [|now left].
  apply Z.eqb_eq in E. right. repeat split. exact E.
Qed.

(** *** The loop that starts the workers *)

(** The number of workers the loop starts. *)
Definition spawned (a : ScanArgs) : Z :=
  Z.min maxThreads (stoppingBlock a - startingBlock a + 1).

(** The loop invariant, after [nt] iterations: [nt] workers, each with
    one fetch in flight, hold the first [nt] heights. *)
Record Spawning (a : ScanArgs) (nt : Z) (s : Scan) : Prop := {
  sp_nt : 0 <= nt;
  sp_err : gotError s = false;
  sp_blockNumber : blockNumber s = startingBlock a + nt;
  sp_threads : numThreads s = nt;
  sp_inFlight : Z.of_nat (List.length (inFlight s)) = nt;
  sp_pending : map height (inFlight s) = claimed s;
  sp_claimed : claimed s = heights_from (startingBlock a) (Z.to_nat nt);
  sp_promise : promise s = None;
  sp_calls : callbackCalls s = [];
  sp_results : results s = []
}.

Lemma initial_spawning a asked : Spawning a 0 (initial asked (startingBlock a)).
Proof.
  constructor; cbn; try reflexivity; try lia.
  all: unfold claimed; cbn; destruct asked; reflexivity.
Qed.

Lemma spawn_iteration a tty nt s :
  Spawning a nt s -> startingBlock a + nt <= stoppingBlock a ->
  Spawning a (nt + 1)
    (asyncScanNextBlock a tty (Z.to_nat nt) (set_numThreads (numThreads s + 1) s)).
Proof.
  intros [Hnt He Hb Ht Hl Hp Hc Hpr Hcc Hr] Hle.
  rewrite asyncScanNextBlock_claims by (cbn; lia || assumption).
  assert (Hsnoc : claimed s ++ [blockNumber s]
                  = heights_from (startingBlock a) (Z.to_nat (nt + 1))).
  { rewrite Hc, Z2Nat.inj_add, Nat.add_1_r, heights_from_snoc by lia.
    rewrite Z2Nat.id by lia. now rewrite Hb. }
  constructor; cbn; try assumption; try lia.
  - rewrite length_app. cbn. lia.
  - unfold claimed. cbn. rewrite fetches_app, !map_app. cbn.
    now rewrite Hp.
  - unfold claimed. cbn. rewrite fetches_app, map_app. cbn. exact Hsnoc.
Qed.

Lemma spawn_loop_spawning a tty fuel nt s :
  Spawning a nt s -> nt <= spawned a ->
  maxThreads - nt <= Z.of_nat fuel ->
  Spawning a (spawned a) (snd (spawn_loop a tty fuel nt s)).
Proof.
  revert nt s. unfold spawned.
  induction fuel as [|fuel IH]; intros nt s Hs Hnt Hfuel; cbn [spawn_loop].
  - replace (Z.min _ _) with nt by lia. exact Hs.
  - destruct ((nt <? maxThreads) && (startingBlock a + nt <=? stoppingBlock a))
      eqn:E.
    + apply andb_prop in E as [E1 E2].
      apply Z.ltb_lt in E1. apply Z.leb_le in E2.
      apply IH; [apply spawn_iteration; assumption | lia | lia].
    + apply andb_false_iff in E as [E|E];
        [apply Z.ltb_ge in E | apply Z.leb_gt in E];
        (replace (Z.min _ _) with nt by lia); exact Hs.
Qed.

(** The loop leaves by its own condition: fuel beyond [maxThreads]
    iterations changes nothing. *)
(** The loop never reaches [exitThread], so the terminal it runs in
    front of makes no difference. *)
Lemma spawn_loop_terminal a tty tty' fuel : forall nt s,
  Spawning a nt s ->
  spawn_loop a tty fuel nt s = spawn_loop a tty' fuel nt s.
Proof.
  induction fuel as [|fuel IH]; intros nt s Hs; cbn [spawn_loop]; [reflexivity|].
  destruct ((nt <? maxThreads) && (startingBlock a + nt <=? stoppingBlock a))
    eqn:E; [|reflexivity].
  apply andb_prop in E as [_ E2]. apply Z.leb_le in E2.
  assert (Hsame : asyncScanNextBlock a tty (Z.to_nat nt)
                    (set_numThreads (numThreads s + 1) s)
                  = asyncScanNextBlock a tty' (Z.to_nat nt)
                      (set_numThreads (numThreads s + 1) s)).
  { destruct Hs as [Hnt He Hb Ht Hl Hp Hc Hpr Hcc Hr].
    rewrite !asyncScanNextBlock_claims by (cbn; lia || assumption).
    reflexivity. }
  rewrite <- Hsame. apply IH. apply spawn_iteration; assumption.
Qed.

Lemma start_scan_terminal a asked tty :
  start_scan a asked
  = if startingBlock a >? stoppingBlock a then initial asked (startingBlock a)
    else snd (spawn_loop a tty (Z.to_nat maxThreads) 0
                (initial asked (startingBlock a))).
Proof.
  unfold start_scan. cbn zeta.
  destruct (startingBlock a >? stoppingBlock a); [reflexivity|].
  f_equal. apply spawn_loop_terminal, initial_spawning.
Qed.

Lemma spawn_loop_fuel a tty fuel extra nt s :
  maxThreads - nt <= Z.of_nat fuel ->
  spawn_loop a tty (fuel + extra) nt s = spawn_loop a tty fuel nt s.
Proof.
  revert nt s. induction fuel as [|fuel IH]; intros nt s Hfuel.
  - destruct extra as [|extra]; [reflexivity|]. cbn [Nat.add spawn_loop].
    destruct (nt <? maxThreads) eqn:E; [apply Z.ltb_lt in E; lia | reflexivity].
  - cbn [Nat.add spawn_loop].
    destruct ((nt <? maxThreads) && (startingBlock a + nt <=? stoppingBlock a));
      [apply IH; lia | reflexivity].
Qed.

Lemma start_scan_spawning a asked :
  startingBlock a <= stoppingBlock a ->
  Spawning a (spawned a) (start_scan a asked).
Proof.
  intros Hle. unfold start_scan.
  destruct (startingBlock a >? stoppingBlock a) eqn:E; [lia|].
  apply spawn_loop_spawning.
  - apply initial_spawning.
  - unfold spawned, maxThreads. lia.
  - unfold maxThreads. cbn. lia.
Qed.

Lemma start_scan_invalid a asked :
  stoppingBlock a < startingBlock a ->
  start_scan a asked = initial asked (startingBlock a).
Proof.
  intros H. unfold start_scan.
  destruct (startingBlock a >? stoppingBlock a) eqn:E; [reflexivity | lia].
Qed.

(** *** Scans in which no fetch fails *)

(** Heights not yet fetched plus fetches in flight. *)
Definition remaining (a : ScanArgs) (s : Scan) : Z :=
  stoppingBlock a + 1 - blockNumber s + Z.of_nat (List.length (inFlight s)).

(** The invariant between callbacks while no fetch has failed: the
    heights claimed so far are the first ones of the range, in order;
    every live worker has exactly one fetch in flight; the last worker
    leaves only when the range is used up. *)
Record Steady (a : ScanArgs) (s : Scan) : Prop := {
  st_err : gotError s = false;
  st_lo : startingBlock a <= blockNumber s;
  st_hi : blockNumber s <= stoppingBlock a + 1;
  st_claimed :
    claimed s
    = heights_from (startingBlock a) (Z.to_nat (blockNumber s - startingBlock a));
  st_threads : numThreads s = Z.of_nat (List.length (inFlight s));
  st_done : inFlight s = [] -> blockNumber s = stoppingBlock a + 1
}.

Lemma spawning_steady a s :
  startingBlock a <= stoppingBlock a ->
  Spawning a (spawned a) s -> Steady a s.
Proof.
  intros Hle [Hnt He Hb Ht Hl Hp Hc Hpr Hcc Hr].
  assert (1 <= spawned a <= stoppingBlock a - startingBlock a + 1)
    by (unfold spawned, maxThreads; lia).
  constructor; try assumption; try lia.
  - rewrite Hc. do 2 f_equal. lia.
  - intros Hnil. rewrite Hnil in Hl. cbn in Hl. lia.
Qed.

(** An answer that is no error runs [asyncScanNextBlock] on the block's
    transfers, in front of some terminal. *)
Lemma getBlock_callback_block a f ans s :
  ans <> AnswerError ->
  exists tty block,
    getBlock_callback a f ans s
    = asyncScanNextBlock a tty (worker f) (scanBlockCallback a block s).
Proof.
  destruct ans as [|block|block]; intros H; [now contradiction H| |].
  - exists LineFits, block. reflexivity.
  - exists NoRoom, block. reflexivity.
Qed.

Lemma Answer_eq_error (ans : Answer) : ans = AnswerError \/ ans <> AnswerError.
Proof. destruct ans; [now left | right; discriminate | right; discriminate]. Qed.

Lemma deliver_steady a s i ans s' :
  Steady a s -> ans <> AnswerError -> deliver a s i ans = Some s' ->
  Steady a s' /\ remaining a s' = remaining a s - 1 /\
  blockNumber s <= blockNumber s'.
Proof.
  intros [He Hlo Hhi Hc Ht Hd] Hans Hdel. unfold deliver in Hdel.
  destruct (nth_error (inFlight s) i) as [f|] eqn:Hf; [|discriminate].
  injection Hdel as <-.
  destruct (getBlock_callback_block a f ans
              (set_inFlight (remove_nth i (inFlight s)) s) Hans)
    as (tty & block & ->).
  pose proof (remove_nth_length _ _ _ Hf) as Hlen.
  destruct (scanBlockCallback_only_results a block
              (set_inFlight (remove_nth i (inFlight s)) s))
    as (Rq & Rb & Re & Rt & Rf & _ & _).
  remember (scanBlockCallback a block
              (set_inFlight (remove_nth i (inFlight s)) s)) as s2 eqn:Es2.
  clear Es2. fields.
  assert (Hc2 : claimed s2 = claimed s) by (unfold claimed; now rewrite Rq).
  destruct (Z_le_gt_dec (blockNumber s2) (stoppingBlock a)) as [Hin | Hout].
  - rewrite asyncScanNextBlock_claims by congruence.
    unfold remaining. cbv zeta. fields. rewrite length_app, Rf, Rb.
    cbn [List.length].
    split; [constructor; fields | lia]; try lia; try congruence.
    + unfold claimed. fields. rewrite fetches_app, map_app.
      cbn [fetches map height]. fold (claimed s2). rewrite Hc2, Hc.
      replace (Z.to_nat (blockNumber s + 1 - startingBlock a))
        with (S (Z.to_nat (blockNumber s - startingBlock a))) by lia.
      rewrite heights_from_snoc, Z2Nat.id by lia. do 2 f_equal. lia.
    + rewrite length_app, Rt, Ht. cbn [List.length]. lia.
    + intros Hnil. apply app_eq_nil in Hnil as [_ Hnil]. discriminate.
  - rewrite asyncScanNextBlock_exits by (right; lia).
    destruct (exitThread_frame a tty s2) as (Eq & Eb & Ee & Et & _ & Ef).
    unfold remaining. rewrite Eb, Ef, Rb, Rf.
    split; [constructor | lia]; rewrite ?Eb, ?Ee, ?Et, ?Ef; try congruence;
      try lia.
    + unfold claimed. rewrite Eq. fold (claimed s2). congruence.
    + rewrite Rt, Rf, Ht. lia.
Qed.

Lemma run_steady a sched : forall s s',
  Steady a s -> no_failure sched -> run a s sched = Some s' ->
  Steady a s' /\
  remaining a s' = remaining a s - Z.of_nat (List.length sched) /\
  blockNumber s <= blockNumber s'.
Proof.
  induction sched as [|[i ans] sched IH]; intros s s' Hs Hnf Hrun.
  - injection Hrun as <-. split; [assumption | cbn; lia].
  - cbn [run] in Hrun. inversion Hnf as [|? ? Hans Hnf']; subst.
    cbn [snd] in Hans.
    destruct (deliver a s i ans) as [s1|] eqn:Hd; [|discriminate].
    destruct (deliver_steady _ _ _ _ _ Hs Hans Hd) as (Hs1 & Hr1 & Hb1).
    destruct (IH _ _ Hs1 Hnf' Hrun) as (Hs' & Hr' & Hb').
    split; [assumption|]. cbn [List.length]. lia.
Qed.

Lemma steady_quiescent a s :
  Steady a s -> (quiescent s <-> remaining a s = 0).
Proof.
  intros [He Hlo Hhi Hc Ht Hd]. unfold quiescent, remaining. split.
  - intros Hq. rewrite (Hd Hq), Hq. cbn. lia.
  - intros Hr. destruct (inFlight s); [reflexivity | cbn in Hr; lia].
Qed.

(** Whatever blocks the node holds, a scan in which no fetch fails can
    always go on until nothing is in flight. *)
Lemma steady_completes (node : Z -> Block) a n : forall s,
  Steady a s -> remaining a s = Z.of_nat n ->
  exists sched s',
    no_failure sched /\ List.length sched = n /\
    run a s sched = Some s' /\ quiescent s'.
Proof.
  induction n as [|n IH]; intros s Hs Hr.
  - exists [], s. repeat split; [constructor|].
    apply (steady_quiescent a s Hs). lia.
  - destruct (inFlight s) as [|f rest] eqn:Hf.
    + apply (steady_quiescent a s Hs) in Hf. lia.
    + destruct (deliver a s 0 (AnswerBlock (node (height f)))) as [s1|] eqn:Hd;
        [|unfold deliver in Hd; rewrite Hf in Hd; discriminate].
      assert (Hne : AnswerBlock (node (height f)) <> AnswerError)
        by discriminate.
      destruct (deliver_steady _ _ _ _ _ Hs Hne Hd) as (Hs1 & Hr1 & _).
      destruct (IH s1 Hs1 ltac:(lia)) as (sched & s' & Hnf & Hlen & Hrun & Hq).
      exists ((0%nat, AnswerBlock (node (height f))) :: sched), s'.
      repeat split; [constructor; [discriminate | assumption] | cbn; lia | | assumption].
      cbn [run]. rewrite Hd. exact Hrun.
Qed.

(** *** Scans under any schedule *)

(** The thread counter against the fetches in flight: every fetch in
    flight belongs to a counted worker, a worker whose fetch failed stays
    counted for ever, and the completion callback has run only if the
    counter came down to 0. *)
Record Counted (s : Scan) : Prop := {
  c_live : Z.of_nat (List.length (inFlight s)) <= numThreads s;
  c_dead : gotError s = true ->
           Z.of_nat (List.length (inFlight s)) < numThreads s;
  c_flag : Forall (fun c => fst c = false) (callbackCalls s);
  c_idle : callbackCalls s <> [] -> numThreads s = 0
}.

Lemma spawning_counted a nt s : Spawning a nt s -> Counted s.
Proof.
  intros [Hnt He Hb Ht Hl Hp Hc Hpr Hcc Hr].
  constructor; rewrite ?Hcc; try lia; try congruence. constructor.
Qed.

Lemma asyncScanNextBlock_counted a tty w s :
  Z.of_nat (List.length (inFlight s)) + 1 <= numThreads s ->
  (gotError s = true -> Z.of_nat (List.length (inFlight s)) + 1 < numThreads s) ->
  callbackCalls s = [] ->
  Counted (asyncScanNextBlock a tty w s).
Proof.
  intros Hl Hd Hc.
  assert (Hexit : Counted (exitThread a tty s)).
  { destruct (exitThread_frame a tty s) as (_ & _ & Ee & Et & _ & Ef).
    destruct (exitThread_calls_cases a tty s) as [Ec | (E & _ & _ & Ec)];
      rewrite Hc in Ec; constructor; rewrite ?Ee, ?Et, ?Ef, ?Ec.
    - lia.
    - intros Hg. specialize (Hd Hg). lia.
    - constructor.
    - intros H. now contradiction H.
    - lia.
    - intros Hg. specialize (Hd Hg). lia.
    - constructor; [|constructor]. cbn [fst].
      destruct (gotError s); [specialize (Hd eq_refl); lia | reflexivity].
    - intros _. exact E. }
  unfold asyncScanNextBlock.
  destruct (gotError s) eqn:Eg; [exact Hexit|].
  destruct (blockNumber s >? stoppingBlock a); [exact Hexit|].
  constructor; fields; rewrite ?length_app, ?Hc; cbn [List.length];
    try lia; try congruence. constructor.
Qed.

Lemma deliver_counted a s i ans s' :
  Counted s -> deliver a s i ans = Some s' -> Counted s'.
Proof.
  intros [Hl Hd Hf Hi] Hdel. unfold deliver in Hdel.
  destruct (nth_error (inFlight s) i) as [f|] eqn:Hnth; [|discriminate].
  injection Hdel as <-.
  pose proof (remove_nth_length _ _ _ Hnth) as Hlen.
  assert (Hc : callbackCalls s = []).
  { destruct (callbackCalls s) eqn:E; [reflexivity|].
    assert (numThreads s = 0) by (apply Hi; discriminate). lia. }
  destruct (Answer_eq_error ans) as [-> | Hans]; cbn [getBlock_callback].
  - constructor; fields; rewrite ?Hc; try lia; try congruence;
      try constructor.
  - destruct (getBlock_callback_block a f ans
                (set_inFlight (remove_nth i (inFlight s)) s) Hans)
      as (tty & block & ->).
    destruct (scanBlockCallback_only_results a block
                (set_inFlight (remove_nth i (inFlight s)) s))
      as (_ & _ & Re & Rt & Rf & _ & Rc).
    fields. apply asyncScanNextBlock_counted; rewrite ?Re, ?Rt, ?Rf, ?Rc;
      try assumption; try lia.
    intros Hg. specialize (Hd Hg). lia.
Qed.

Lemma run_counted a sched : forall s s',
  Counted s -> run a s sched = Some s' -> Counted s'.
Proof.
  induction sched as [|[i ans] sched IH]; intros s s' Hs Hrun; cbn [run] in Hrun.
  - now injection Hrun as <-.
  - destruct (deliver a s i ans) as [s1|] eqn:Hd; [|discriminate].
    eauto using deliver_counted.
Qed.

Lemma start_scan_counted a asked : Counted (start_scan a asked).
Proof.
  destruct (Z_le_gt_dec (startingBlock a) (stoppingBlock a)) as [Hle | Hgt].
  - eapply spawning_counted, start_scan_spawning, Hle.
  - rewrite start_scan_invalid by lia.
    eapply spawning_counted, initial_spawning.
Qed.

(** Under every schedule the completion callback is called with
    [gotError = false] only, and not at all once a fetch has failed. *)
Lemma callback_never_reports_error a asked sched s :
  run a (start_scan a asked) sched = Some s ->
  Forall (fun c => fst c = false) (callbackCalls s) /\
  (gotError s = true -> callbackCalls s = []).
Proof.
  intros Hrun.
  destruct (run_counted _ _ _ _ (start_scan_counted a asked) Hrun)
    as [Hl Hd Hf Hi].
  split; [assumption|]. intros Hg. specialize (Hd Hg).
  destruct (callbackCalls s) eqn:E; [reflexivity|].
  assert (numThreads s = 0) by (apply Hi; discriminate). lia.
Qed.

(** Under every schedule the completion callback runs only after the
    last worker has left. *)
Lemma callback_waits_for_all_workers a asked sched s :
  run a (start_scan a asked) sched = Some s ->
  callbackCalls s <> [] -> quiescent s /\ numThreads s = 0.
Proof.
  intros Hrun Hc.
  destruct (run_counted _ _ _ _ (start_scan_counted a asked) Hrun)
    as [Hl Hd Hf Hi].
  specialize (Hi Hc). split; [|assumption].
  unfold quiescent. destruct (inFlight s); [reflexivity | cbn in Hl; lia].
Qed.

(** *** The entry point *)

Lemma scanBlockRange_start account chainHead start stop cb :
  exists asked,
    scanBlockRange account chainHead start stop cb
    = start_scan (scan_args account chainHead start stop cb) asked /\
    asked = fst (fst (resolve_heights chainHead start stop)).
Proof.
  unfold scanBlockRange.
  destruct (resolve_heights chainHead start stop) as [[asked b] e] eqn:E.
  exists asked. split; reflexivity.
Qed.

Lemma asyncScanNextBlock_head_queries a tty w s :
  head_queries (requests (asyncScanNextBlock a tty w s)) = head_queries (requests s).
Proof.
  assert (Hexit : head_queries (requests (exitThread a tty s))
                  = head_queries (requests s)).
  { destruct (exitThread_frame a tty s) as (Eq & _). now rewrite Eq. }
  unfold asyncScanNextBlock.
  destruct (gotError s); [exact Hexit|].
  destruct (blockNumber s >? stoppingBlock a); [exact Hexit|].
  fields. unfold head_queries. rewrite filter_app, length_app. cbn. lia.
Qed.

Lemma spawn_loop_head_queries a tty fuel : forall nt s,
  head_queries (requests (snd (spawn_loop a tty fuel nt s)))
  = head_queries (requests s).
Proof.
  induction fuel as [|fuel IH]; intros nt s; cbn [spawn_loop]; [reflexivity|].
  destruct ((nt <? maxThreads) && (startingBlock a + nt <=? stoppingBlock a));
    [|reflexivity].
  rewrite IH, asyncScanNextBlock_head_queries. reflexivity.
Qed.

Lemma start_scan_head_queries a asked :
  head_queries (requests (start_scan a asked)) = if asked then 1%nat else 0%nat.
Proof.
  unfold start_scan.
  destruct (startingBlock a >? stoppingBlock a);
    [|rewrite spawn_loop_head_queries]; destruct asked; reflexivity.
Qed.

Lemma start_scan_remaining a asked :
  startingBlock a <= stoppingBlock a ->
  remaining a (start_scan a asked) = stoppingBlock a - startingBlock a + 1.
Proof.
  intros Hle.
  destruct (start_scan_spawning a asked Hle) as [Hnt He Hb Ht Hl Hp Hc Hpr Hcc Hr].
  unfold remaining. lia.
Qed.

(** A scan of a valid range whose fetches all succeed can be run to the
    end, and every such run takes one answer per height. *)
Lemma failure_free_scan_completes (node : Z -> Block) a asked :
  startingBlock a <= stoppingBlock a ->
  exists sched s,
    no_failure sched /\
    Z.of_nat (List.length sched) = stoppingBlock a - startingBlock a + 1 /\
    run a (start_scan a asked) sched = Some s /\ quiescent s.
Proof.
  intros Hle.
  pose proof (spawning_steady a _ Hle (start_scan_spawning a asked Hle)) as Hs.
  pose proof (start_scan_remaining a asked Hle) as Hr.
  destruct (steady_completes node a
              (Z.to_nat (stoppingBlock a - startingBlock a + 1)) _ Hs
              ltac:(lia)) as (sched & s & Hnf & Hlen & Hrun & Hq).
  exists sched, s. repeat split; try assumption. lia.
Qed.

Lemma failure_free_schedule_length a asked sched s :
  startingBlock a <= stoppingBlock a ->
  no_failure sched -> run a (start_scan a asked) sched = Some s ->
  Z.of_nat (List.length sched) <= stoppingBlock a - startingBlock a + 1 /\
  (quiescent s <->
   Z.of_nat (List.length sched) = stoppingBlock a - startingBlock a + 1).
Proof.
  intros Hle Hnf Hrun.
  pose proof (spawning_steady a _ Hle (start_scan_spawning a asked Hle)) as Hs.
  destruct (run_steady _ _ _ _ Hs Hnf Hrun) as (Hs' & Hr & _).
  rewrite start_scan_remaining in Hr by assumption.
  rewrite (steady_quiescent a s Hs').
  destruct Hs' as [_ _ Hhi _ _ _]. unfold remaining in *. lia.
Qed.

(** C4. In a scan of a valid range in which no fetch fails, the heights
    claimed so far are strictly increasing in the order of claim, lie in
    the range, and no height is held by two fetches (so by two workers);
    once every worker has exited the heights claimed are exactly
    [startingBlock], ..., [stoppingBlock], [stoppingBlock - startingBlock
    + 1] of them. *)
Theorem failure_free_scan_visits_each_height_once
  account chainHead start stop cb sched s :
  let a := scan_args account chainHead start stop cb in
  startingBlock a <= stoppingBlock a ->
  no_failure sched ->
  run a (scanBlockRange account chainHead start stop cb) sched = Some s ->
  StronglySorted Z.lt (claimed s)
  /\ (forall h, In h (claimed s) -> startingBlock a <= h <= stoppingBlock a)
  /\ (forall f g,
        In f (fetches (requests s)) -> In g (fetches (requests s)) ->
        height f = height g -> f = g)
  /\ (quiescent s ->
      claimed s
      = heights_from (startingBlock a)
          (Z.to_nat (stoppingBlock a - startingBlock a + 1))
      /\ Z.of_nat (List.length (claimed s))
         = stoppingBlock a - startingBlock a + 1
      /\ (forall h, In h (claimed s) <-> startingBlock a <= h <= stoppingBlock a)
      /\ numThreads s = 0).
Proof.
  intros a Hle Hnf Hrun.
  destruct (scanBlockRange_start account chainHead start stop cb)
    as (asked & E & _).
  fold a in E. rewrite E in Hrun.
  pose proof (spawning_steady a _ Hle (start_scan_spawning a asked Hle)) as Hs.
  destruct (run_steady _ _ _ _ Hs Hnf Hrun) as ([He Hlo Hhi Hc Ht Hd] & _ & _).
  repeat split.
  - rewrite Hc. apply heights_from_sorted.
  - rewrite Hc in H. apply heights_from_In in H. lia.
  - rewrite Hc in H. apply heights_from_In in H. lia.
  - intros f g Hf Hg Heq.
    apply (same_height_same_fetch (fetches (requests s))); try assumption.
    fold (claimed s). rewrite Hc. apply heights_from_NoDup.
  - rewrite Hc, (Hd H). do 2 f_equal. lia.
  - rewrite Hc, heights_from_length, (Hd H). lia.
  - rewrite Hc in H0. apply heights_from_In in H0. lia.
  - rewrite Hc in H0. apply heights_from_In in H0. lia.
  - intros Hh. rewrite Hc, (Hd H). apply heights_from_In. lia.
  - rewrite Ht, H. reflexivity.
Qed.

Lemma failure_free_scan_visits_each_height_once_witness :
  claimed three_blocks_end = [1; 2; 3]
  /\ Z.of_nat (List.length (claimed three_blocks_end)) = 3
  /\ (forall h, In h (claimed three_blocks_end) <-> 1 <= h <= 3)
  /\ numThreads three_blocks_end = 0.
Proof.
  apply (failure_free_scan_visits_each_height_once
           watched 50 (Some 1) (Some 3) true oldest_first three_blocks_end).
  - cbn. lia.
  - repeat constructor; discriminate.
  - vm_compute. reflexivity.
  - reflexivity.
Defined.

(** C8. An omitted [stoppingBlock] becomes the chain head, for which the
    node is asked once; an omitted [startingBlock] becomes the resolved
    [stoppingBlock] minus 10; with both omitted the scan fetches the 11
    heights [head - 10], ..., [head], and nothing else however the
    fetches are answered. *)
Theorem omitted_heights_default_to_recent_blocks account chainHead cb :
  (forall start,
      stoppingBlock (scan_args account chainHead start None cb) = chainHead
      /\ head_queries
           (requests (scanBlockRange account chainHead start None cb)) = 1%nat)
  /\ (forall stop,
         startingBlock (scan_args account chainHead None stop cb)
         = stoppingBlock (scan_args account chainHead None stop cb) - 10)
  /\ startingBlock (scan_args account chainHead None None cb) = chainHead - 10
  /\ stoppingBlock (scan_args account chainHead None None cb) = chainHead
  /\ claimed (scanBlockRange account chainHead None None cb)
     = heights_from (chainHead - 10) 11
  /\ (forall sched s,
         no_failure sched ->
         run (scan_args account chainHead None None cb)
           (scanBlockRange account chainHead None None cb) sched = Some s ->
         claimed s = heights_from (chainHead - 10) 11).
Proof.
  assert (Hsp : Spawning (scan_args account chainHead None None cb) 11
                  (scanBlockRange account chainHead None None cb)).
  { change (scanBlockRange account chainHead None None cb)
      with (start_scan (scan_args account chainHead None None cb) true).
    replace 11 with (spawned (scan_args account chainHead None None cb))
      by (unfold spawned, maxThreads; cbn; lia).
    apply start_scan_spawning. cbn. lia. }
  split; [|split; [|split; [|split; [|split]]]].
  - intros start. split.
    + destruct start as [z|]; cbn; [destruct (z =? 0)|]; reflexivity.
    + destruct (scanBlockRange_start account chainHead start None cb)
        as (asked & E & Ea).
      rewrite E, start_scan_head_queries, Ea.
      destruct start as [z|]; cbn; [destruct (z =? 0)|]; reflexivity.
  - intros stop. unfold scan_args, resolve_heights.
    destruct stop as [z|]; [destruct (z =? 0)|]; reflexivity.
  - reflexivity.
  - reflexivity.
  - apply (sp_claimed _ _ _ Hsp).
  - intros sched s Hnf Hrun.
    assert (Hs : Steady (scan_args account chainHead None None cb)
                   (scanBlockRange account chainHead None None cb)).
    { change (scanBlockRange account chainHead None None cb)
        with (start_scan (scan_args account chainHead None None cb) true) in *.
      apply spawning_steady; [cbn; lia|].
      replace (spawned _) with 11 by (unfold spawned, maxThreads; cbn; lia).
      exact Hsp. }
    destruct (run_steady _ _ _ _ Hs Hnf Hrun) as ([_ _ Hhi Hc _ _] & _ & Hb).
    rewrite (sp_blockNumber _ _ _ Hsp) in Hb.
    cbn [scan_args resolve_heights startingBlock stoppingBlock] in Hb, Hhi, Hc.
    rewrite Hc. f_equal. lia.
Qed.

Lemma omitted_heights_default_to_recent_blocks_witness :
  claimed (scanBlockRange watched 50 None None true)
  = [40; 41; 42; 43; 44; 45; 46; 47; 48; 49; 50].
Proof.
  apply (proj1 (proj2 (proj2 (proj2 (proj2
    (omitted_heights_default_to_recent_blocks watched 50 true)))))).
Defined.

(** C10. A height of 0 is falsy and so is handled as an omitted one: a
    [startingBlock] of 0 becomes the resolved [stoppingBlock] minus 10
    and a [stoppingBlock] of 0 becomes the chain head, with the same scan
    as when the argument is left out. *)
Theorem zero_height_is_treated_as_omitted account chainHead start stop cb :
  scan_args account chainHead (Some 0) stop cb
  = scan_args account chainHead None stop cb
  /\ scanBlockRange account chainHead (Some 0) stop cb
     = scanBlockRange account chainHead None stop cb
  /\ scan_args account chainHead start (Some 0) cb
     = scan_args account chainHead start None cb
  /\ scanBlockRange account chainHead start (Some 0) cb
     = scanBlockRange account chainHead start None cb
  /\ startingBlock (scan_args account chainHead (Some 0) stop cb)
     = stoppingBlock (scan_args account chainHead (Some 0) stop cb) - 10
  /\ stoppingBlock (scan_args account chainHead start (Some 0) cb) = chainHead.
Proof.
  split; [reflexivity|]. split; [reflexivity|]. split; [reflexivity|].
  split; [reflexivity|]. unfold scan_args, resolve_heights. split.
  - destruct stop as [z|]; [destruct (z =? 0)|]; reflexivity.
  - destruct start as [z|]; [destruct (z =? 0)|]; reflexivity.
Qed.

(** *** What [results] holds *)

Lemma scanTransactionCallback_results a txn block s :
  results (scanTransactionCallback a txn block s)
  = results s ++ transfer a txn block.
Proof.
  unfold scanTransactionCallback, transfer.
  destruct (strict_eq (txn_to txn) (defaultAccount a));
    [|destruct (strict_eq (JsString (txn_from txn)) (defaultAccount a))];
    fields; rewrite ?app_nil_r; reflexivity.
Qed.

Lemma scanBlockCallback_results a block s :
  results (scanBlockCallback a block s) = results s ++ transfers a block.
Proof.
  unfold scanBlockCallback, transfers.
  destruct (transactions block) as [txns|]; [|now rewrite app_nil_r].
  revert s. induction txns as [|t txns IH]; intros s; cbn [fold_left flat_map].
  - now rewrite app_nil_r.
  - rewrite IH, scanTransactionCallback_results, app_assoc. reflexivity.
Qed.

Lemma asyncScanNextBlock_results a tty w s :
  results (asyncScanNextBlock a tty w s) = results s.
Proof.
  assert (Hexit : results (exitThread a tty s) = results s)
    by apply (exitThread_frame a tty s).
  unfold asyncScanNextBlock.
  destruct (gotError s); [exact Hexit|].
  destruct (blockNumber s >? stoppingBlock a); [exact Hexit | reflexivity].
Qed.

(** Under every schedule, with or without failed fetches, [results]
    holds the transfers of the blocks answered so far, each block's once
    and in the order of the answers; nothing else is ever pushed. *)
Lemma results_hold_the_answered_blocks a sched : forall s s',
  run a s sched = Some s' ->
  results s' = results s ++ answered_transfers a sched.
Proof.
  induction sched as [|[i ans] sched IH]; intros s s' Hrun; cbn [run] in Hrun.
  - injection Hrun as <-. cbn. now rewrite app_nil_r.
  - destruct (deliver a s i ans) as [s1|] eqn:Hd; [|discriminate].
    rewrite (IH _ _ Hrun). unfold deliver in Hd.
    destruct (nth_error (inFlight s) i) as [f|]; [|discriminate].
    injection Hd as <-. unfold answered_transfers. cbn [flat_map snd].
    rewrite app_assoc. f_equal.
    destruct ans as [|block|block]; cbn [getBlock_callback].
    + fields. now rewrite app_nil_r.
    + rewrite asyncScanNextBlock_results, scanBlockCallback_results.
      reflexivity.
    + rewrite asyncScanNextBlock_results, scanBlockCallback_results.
      reflexivity.
Qed.

(** *** Where the scanner leaves its caller without an answer *)

(** From a range whose start is after its end nothing is fetched and
    nothing is reported: the promise stays pending, the callback is not
    called, and no node answer is awaited that could change this. *)
Lemma inverted_range_is_silent account chainHead start stop cb :
  let a := scan_args account chainHead start stop cb in
  let s := scanBlockRange account chainHead start stop cb in
  stoppingBlock a < startingBlock a ->
  fetches (requests s) = [] /\ promise s = None /\ callbackCalls s = [] /\
  quiescent s /\ forall i ans, deliver a s i ans = None.
Proof.
  intros a s Hgt. subst s.
  destruct (scanBlockRange_start account chainHead start stop cb)
    as (asked & E & _).
  fold a in E. rewrite E, start_scan_invalid by assumption.
  repeat split; try (destruct asked; reflexivity).
  intros i ans. unfold deliver. cbn. now destruct i.
Qed.

(** C3, at [scanBlockRange(5, 3, callback)].  The range test leaves the
    promise executor by [return -1]: no block is fetched, and the caller
    gets neither a rejection nor a callback call; the promise is pending
    with nothing in flight that could settle it. *)
Theorem inverted_range_never_settles :
  let a := scan_args watched 50 (Some 5) (Some 3) true in
  let s := scanBlockRange watched 50 (Some 5) (Some 3) true in
  stoppingBlock a < startingBlock a
  /\ requests s = []
  /\ promise s = None
  /\ callbackCalls s = []
  /\ quiescent s
  /\ forall sched, sched <> [] -> run a s sched = None.
Proof.
  cbv zeta. split; [cbn; lia|]. repeat split.
  intros [|[i ans] sched] H; [contradiction|]. cbn [run].
  pose proof (inverted_range_is_silent watched 50 (Some 5) (Some 3) true) as Hs.
  cbv zeta in Hs. destruct Hs as (_ & _ & _ & _ & Hd); [cbn; lia|].
  rewrite Hd. reflexivity.
Qed.

(** C1, at [scanBlockRange(100, 100, callback)] with a failing fetch, and
    at [scanBlockRange(200, 201, callback)] where the fetch of 201 fails
    before the one of 200 is answered.  In the first scan the only worker
    sets [gotError] and stops without leaving through [exitThread]: the
    promise stays pending and the callback is never called.  In the
    second the other worker's exit resolves the promise with the plain
    [results] array, and the callback, the one place where [gotError] is
    handed out, is again not called. *)
Theorem failed_fetch_is_not_reported :
  (exists s,
      run (scan_args watched 500 (Some 100) (Some 100) true)
        (scanBlockRange watched 500 (Some 100) (Some 100) true)
        [(0%nat, AnswerError)] = Some s
      /\ gotError s = true /\ quiescent s /\ numThreads s = 1
      /\ promise s = None /\ callbackCalls s = [])
  /\ (exists s,
         run (scan_args watched 500 (Some 200) (Some 201) true)
           (scanBlockRange watched 500 (Some 200) (Some 201) true)
           [(1%nat, AnswerError); (0%nat, AnswerBlock block_with_credit)]
         = Some s
         /\ gotError s = true /\ quiescent s /\ numThreads s = 1
         /\ results s = [Credit 1700000000 5 "0xpeer"%string]
         /\ promise s = Some 1%nat /\ callbackCalls s = []).
Proof.
  split; eexists; (split; [vm_compute; reflexivity|]); repeat split.
Qed.

(** C7, at [scanBlockRange(1, 2, callback)] when the fetch of height 1
    is answered first.  The first worker finds the range used up and
    leaves; [exitThread] resolves the promise although the thread counter
    is still 1 and the fetch of height 2 is in flight.  The block of
    height 2 then adds to the array the promise was resolved with, and
    only then is the callback called. *)
Theorem first_exit_resolves_the_promise :
  let a := scan_args watched 50 (Some 1) (Some 2) true in
  let s0 := scanBlockRange watched 50 (Some 1) (Some 2) true in
  (exists s,
      run a s0 [(0%nat, AnswerBlock empty_block)] = Some s
      /\ promise s = Some 0%nat
      /\ numThreads s = 1
      /\ inFlight s = [{| worker := 1; height := 2 |}]
      /\ callbackCalls s = [])
  /\ (exists s,
         run a s0 [(0%nat, AnswerBlock empty_block);
                   (0%nat, AnswerBlock block_with_credit)] = Some s
         /\ promise s = Some 0%nat
         /\ results s = [Credit 1700000000 5 "0xpeer"%string]
         /\ quiescent s /\ numThreads s = 0
         /\ callbackCalls s = [(false, 2)]).
Proof.
  split; eexists; (split; [vm_compute; reflexivity|]); repeat split.
Qed.

(** *** Further facts about [scanBlockRange] *)

Lemma scanBlockRange_initially account chainHead start stop cb :
  let a := scan_args account chainHead start stop cb in
  let s := scanBlockRange account chainHead start stop cb in
  (stoppingBlock a < startingBlock a /\ Spawning a 0 s)
  \/ (startingBlock a <= stoppingBlock a /\ Spawning a (spawned a) s).
Proof.
  intros a s. subst s.
  destruct (scanBlockRange_start account chainHead start stop cb)
    as (asked & E & _).
  fold a in E. rewrite E.
  destruct (Z_le_gt_dec (startingBlock a) (stoppingBlock a)) as [Hle | Hgt].
  - right. split; [assumption | now apply start_scan_spawning].
  - left. split; [lia|]. rewrite start_scan_invalid by lia.
    apply initial_spawning.
Qed.

Lemma exitThread_promise a tty s :
  promise (exitThread a tty s)
  = match tty, numThreads s - 1 =? 0 with
    | NoRoom, true => promise s
    | _, _ =>
        match promise s with
        | None => Some (List.length (results s))
        | Some n => Some n
        end
    end.
Proof.
  unfold exitThread, resolve. fields.
  destruct tty; destruct (numThreads s - 1 =? 0); try destruct (callback a);
    fields; destruct (promise s) eqn:E; fields; rewrite ?E; reflexivity.
Qed.

Lemma asyncScanNextBlock_numThreads a tty w s :
  numThreads s - 1 <= numThreads (asyncScanNextBlock a tty w s) <= numThreads s.
Proof.
  assert (Hexit : numThreads (exitThread a tty s) = numThreads s - 1)
    by apply (exitThread_frame a tty s).
  unfold asyncScanNextBlock.
  destruct (gotError s); [lia|].
  destruct (blockNumber s >? stoppingBlock a); [lia | fields; lia].
Qed.

Lemma run_numThreads a sched : forall s s',
  run a s sched = Some s' -> numThreads s' <= numThreads s.
Proof.
  induction sched as [|[i ans] sched IH]; intros s s' Hrun; cbn [run] in Hrun.
  - injection Hrun as <-. lia.
  - destruct (deliver a s i ans) as [s1|] eqn:Hd; [|discriminate].
    specialize (IH _ _ Hrun). unfold deliver in Hd.
    destruct (nth_error (inFlight s) i) as [f|]; [|discriminate].
    injection Hd as <-.
    destruct (Answer_eq_error ans) as [-> | Hans]; cbn [getBlock_callback] in IH.
    + fields. lia.
    + destruct (getBlock_callback_block a f ans
                  (set_inFlight (remove_nth i (inFlight s)) s) Hans)
        as (tty & block & E).
      rewrite E in IH.
      pose proof (asyncScanNextBlock_numThreads a tty (worker f)
                    (scanBlockCallback a block
                       (set_inFlight (remove_nth i (inFlight s)) s))) as Hn.
      destruct (scanBlockCallback_only_results a block
                  (set_inFlight (remove_nth i (inFlight s)) s))
        as (_ & _ & _ & Rt & _).
      fields. lia.
Qed.

(** The pool is bounded.  Under every schedule the fetches in flight
    never outnumber the counted workers, and these are never more than
    [maxThreads] nor more than the heights of the range. *)
Theorem in_flight_fetches_are_bounded account chainHead start stop cb sched s :
  let a := scan_args account chainHead start stop cb in
  run a (scanBlockRange account chainHead start stop cb) sched = Some s ->
  Z.of_nat (List.length (inFlight s)) <= numThreads s
  /\ numThreads s <= maxThreads
  /\ numThreads s <= Z.max 0 (stoppingBlock a - startingBlock a + 1).
Proof.
  intros a Hrun.
  pose proof (run_numThreads _ _ _ _ Hrun) as Hmono.
  assert (Hc : Counted (scanBlockRange account chainHead start stop cb)).
  { destruct (scanBlockRange_initially account chainHead start stop cb)
      as [[_ H] | [_ H]]; eapply spawning_counted, H. }
  destruct (run_counted _ _ _ _ Hc Hrun) as [Hl _ _ _].
  split; [assumption|].
  destruct (scanBlockRange_initially account chainHead start stop cb)
    as [[Hgt H] | [Hle H]]; fold a in Hgt || fold a in Hle; fold a in H;
    rewrite (sp_threads _ _ _ H) in Hmono; unfold spawned, maxThreads in *; lia.
Qed.

Lemma in_flight_fetches_are_bounded_witness :
  Z.of_nat (List.length (inFlight three_blocks_end)) <= numThreads three_blocks_end
  /\ numThreads three_blocks_end <= maxThreads
  /\ numThreads three_blocks_end <= Z.max 0 (3 - 1 + 1).
Proof.
  apply (in_flight_fetches_are_bounded watched 50 (Some 1) (Some 3) true
           oldest_first three_blocks_end).
  vm_compute. reflexivity.
Defined.

(** The loop starts [min(maxThreads, stoppingBlock - startingBlock + 1)]
    workers, never more workers than heights; they hold the first
    heights of the range, one fetch each, and nothing has been reported
    when the loop is left. *)
Theorem scan_starts_one_worker_per_height_up_to_maxThreads
  account chainHead start stop cb :
  let a := scan_args account chainHead start stop cb in
  let s := scanBlockRange account chainHead start stop cb in
  startingBlock a <= stoppingBlock a ->
  numThreads s = Z.min maxThreads (stoppingBlock a - startingBlock a + 1)
  /\ map height (inFlight s)
     = heights_from (startingBlock a) (Z.to_nat (numThreads s))
  /\ claimed s = map height (inFlight s)
  /\ blockNumber s = startingBlock a + numThreads s
  /\ promise s = None /\ callbackCalls s = [] /\ results s = []
  /\ gotError s = false.
Proof.
  intros a s Hle.
  destruct (scanBlockRange_initially account chainHead start stop cb)
    as [[Hgt _] | [_ H]]; [fold a in Hgt; lia|].
  fold a s in H. destruct H as [Hnt He Hb Ht Hl Hp Hc Hpr Hcc Hr].
  rewrite Ht, Hp, Hc. repeat split; assumption.
Qed.

Lemma scan_starts_one_worker_per_height_up_to_maxThreads_witness :
  numThreads (scanBlockRange watched 50 (Some 1) (Some 3) true) = 3
  /\ map height (inFlight (scanBlockRange watched 50 (Some 1) (Some 3) true))
     = [1; 2; 3].
Proof.
  destruct (scan_starts_one_worker_per_height_up_to_maxThreads
              watched 50 (Some 1) (Some 3) true ltac:(cbn; lia))
    as (H1 & H2 & _).
  split; [exact H1 | exact H2].
Defined.

(** Cancellation is cooperative and final.  Once [gotError] is set it
    stays set, no further block is requested and the height cursor does
    not move, whatever the node answers afterwards; each answer only
    takes one fetch out of flight. *)
Theorem failed_fetch_stops_claiming a sched : forall s s',
  gotError s = true -> run a s sched = Some s' ->
  gotError s' = true /\ requests s' = requests s
  /\ blockNumber s' = blockNumber s
  /\ (List.length (inFlight s') + List.length sched
      = List.length (inFlight s))%nat.
Proof.
  induction sched as [|[i ans] sched IH]; intros s s' Hg Hrun; cbn [run] in Hrun.
  - injection Hrun as <-. repeat split; try assumption. cbn. lia.
  - destruct (deliver a s i ans) as [s1|] eqn:Hd; [|discriminate].
    unfold deliver in Hd.
    destruct (nth_error (inFlight s) i) as [f|] eqn:Hnth; [|discriminate].
    pose proof (remove_nth_length _ _ _ Hnth) as Hlen.
    injection Hd as <-.
    assert (Hstep : gotError (getBlock_callback a f ans
                                (set_inFlight (remove_nth i (inFlight s)) s))
                    = true
                    /\ requests (getBlock_callback a f ans
                                   (set_inFlight (remove_nth i (inFlight s)) s))
                       = requests s
                    /\ blockNumber (getBlock_callback a f ans
                                      (set_inFlight (remove_nth i (inFlight s)) s))
                       = blockNumber s
                    /\ inFlight (getBlock_callback a f ans
                                   (set_inFlight (remove_nth i (inFlight s)) s))
                       = remove_nth i (inFlight s)).
    { destruct (Answer_eq_error ans) as [-> | Hans];
        cbn [getBlock_callback]; [repeat split|].
      destruct (getBlock_callback_block a f ans
                  (set_inFlight (remove_nth i (inFlight s)) s) Hans)
        as (tty & block & ->).
      destruct (scanBlockCallback_only_results a block
                  (set_inFlight (remove_nth i (inFlight s)) s))
        as (Rq & Rb & Re & _ & Rf & _).
      fields. rewrite asyncScanNextBlock_exits by (left; congruence).
      destruct (exitThread_frame a tty
                  (scanBlockCallback a block
                     (set_inFlight (remove_nth i (inFlight s)) s)))
        as (Eq & Eb & Ee & _ & _ & Ef).
      repeat split; congruence. }
    destruct Hstep as (Sg & Sq & Sb & Sf).
    destruct (IH _ _ Sg Hrun) as (Ig & Iq & Ib & Il).
    rewrite Sf in Il. cbn [List.length].
    repeat split; try congruence. lia.
Qed.

Lemma failed_fetch_stops_claiming_witness :
  exists s s',
    run three_blocks (scanBlockRange watched 50 (Some 1) (Some 3) true)
      [(0%nat, AnswerError)] = Some s
    /\ run three_blocks s [(0%nat, AnswerBlock empty_block)] = Some s'
    /\ gotError s' = true /\ requests s' = requests s
    /\ blockNumber s' = blockNumber s
    /\ (List.length (inFlight s') + 1 = List.length (inFlight s))%nat.
Proof.
  eexists. eexists. split; [vm_compute; reflexivity|].
  split; [vm_compute; reflexivity|].
  eapply (failed_fetch_stops_claiming three_blocks
            [(0%nat, AnswerBlock empty_block)]);
    vm_compute; reflexivity.
Defined.

(** The height cursor and the heights requested so far, under any
    schedule. *)
Record Cursor (a : ScanArgs) (s : Scan) : Prop := {
  cu_lo : startingBlock a <= blockNumber s;
  cu_hi : blockNumber s - startingBlock a
          <= Z.max 0 (stoppingBlock a - startingBlock a + 1);
  cu_claimed :
    claimed s
    = heights_from (startingBlock a) (Z.to_nat (blockNumber s - startingBlock a))
}.

Lemma asyncScanNextBlock_cursor a tty w s :
  Cursor a s -> Cursor a (asyncScanNextBlock a tty w s).
Proof.
  intros [Hlo Hhi Hc].
  assert (Hexit : Cursor a (exitThread a tty s)).
  { destruct (exitThread_frame a tty s) as (Eq & Eb & _).
    constructor; rewrite ?Eb; try assumption.
    unfold claimed. rewrite Eq. exact Hc. }
  unfold asyncScanNextBlock.
  destruct (gotError s); [exact Hexit|].
  destruct (blockNumber s >? stoppingBlock a) eqn:E; [exact Hexit|].
  constructor; fields; try lia.
  unfold claimed. fields. rewrite fetches_app, map_app.
  cbn [fetches map height]. fold (claimed s). rewrite Hc.
  replace (Z.to_nat (blockNumber s + 1 - startingBlock a))
    with (S (Z.to_nat (blockNumber s - startingBlock a))) by lia.
  rewrite heights_from_snoc, Z2Nat.id by lia. do 2 f_equal. lia.
Qed.

Lemma run_cursor a sched : forall s s',
  Cursor a s -> run a s sched = Some s' -> Cursor a s'.
Proof.
  induction sched as [|[i ans] sched IH]; intros s s' Hs Hrun; cbn [run] in Hrun.
  - now injection Hrun as <-.
  - destruct (deliver a s i ans) as [s1|] eqn:Hd; [|discriminate].
    apply (IH s1 s'); [|assumption]. unfold deliver in Hd.
    destruct (nth_error (inFlight s) i) as [f|]; [|discriminate].
    injection Hd as <-. destruct Hs as [Hlo Hhi Hc].
    destruct (Answer_eq_error ans) as [-> | Hans]; cbn [getBlock_callback].
    + constructor; assumption.
    + destruct (getBlock_callback_block a f ans
                  (set_inFlight (remove_nth i (inFlight s)) s) Hans)
        as (tty & block & ->).
      apply asyncScanNextBlock_cursor.
      destruct (scanBlockCallback_only_results a block
                  (set_inFlight (remove_nth i (inFlight s)) s))
        as (Rq & Rb & _).
      fields. constructor; rewrite ?Rb; try assumption.
      unfold claimed. rewrite Rq. exact Hc.
Qed.

Lemma spawning_cursor a nt s :
  nt <= Z.max 0 (stoppingBlock a - startingBlock a + 1) ->
  Spawning a nt s -> Cursor a s.
Proof.
  intros Hle [Hnt He Hb Ht Hl Hp Hc Hpr Hcc Hr].
  constructor; rewrite ?Hb; try lia.
  rewrite Hc. do 2 f_equal. lia.
Qed.

(** Whatever the node answers, failures included, the heights requested
    so far are [startingBlock], [startingBlock + 1], ... without a gap or
    a repetition, in this order, and none lies beyond [stoppingBlock]. *)
Theorem requested_heights_form_an_initial_segment
  account chainHead start stop cb sched s :
  let a := scan_args account chainHead start stop cb in
  run a (scanBlockRange account chainHead start stop cb) sched = Some s ->
  exists k,
    claimed s = heights_from (startingBlock a) k
    /\ Z.of_nat k <= Z.max 0 (stoppingBlock a - startingBlock a + 1)
    /\ StronglySorted Z.lt (claimed s)
    /\ NoDup (claimed s)
    /\ forall h, In h (claimed s) -> startingBlock a <= h <= stoppingBlock a.
Proof.
  intros a Hrun.
  assert (Hc : Cursor a (scanBlockRange account chainHead start stop cb)).
  { destruct (scanBlockRange_initially account chainHead start stop cb)
      as [[Hgt H] | [Hle H]]; fold a in H; eapply spawning_cursor; try exact H.
    - lia.
    - fold a in Hle. unfold spawned, maxThreads. lia. }
  destruct (run_cursor _ _ _ _ Hc Hrun) as [Hlo Hhi Hcl].
  exists (Z.to_nat (blockNumber s - startingBlock a)).
  rewrite Hcl. repeat split.
  - lia.
  - apply heights_from_sorted.
  - apply heights_from_NoDup.
  - apply heights_from_In in H. lia.
  - apply heights_from_In in H. lia.
Qed.

Lemma requested_heights_form_an_initial_segment_witness :
  exists k,
    claimed three_blocks_end = heights_from 1 k
    /\ Z.of_nat k <= Z.max 0 (3 - 1 + 1)
    /\ StronglySorted Z.lt (claimed three_blocks_end)
    /\ NoDup (claimed three_blocks_end)
    /\ forall h, In h (claimed three_blocks_end) -> 1 <= h <= 3.
Proof.
  apply (requested_heights_form_an_initial_segment watched 50 (Some 1) (Some 3)
           true oldest_first three_blocks_end).
  vm_compute. reflexivity.
Defined.

Lemma run_app a sched1 : forall sched2 s s',
  run a s (sched1 ++ sched2) = Some s' ->
  exists mid, run a s sched1 = Some mid /\ run a mid sched2 = Some s'.
Proof.
  induction sched1 as [|[i ans] sched1 IH]; intros sched2 s s' Hrun.
  - exists s. split; [reflexivity | exact Hrun].
  - cbn [app run] in *.
    destruct (deliver a s i ans) as [s1|]; [|discriminate].
    apply IH, Hrun.
Qed.

(** *** How a scan without failures ends *)

Lemma all_printed_no_failure sched : all_printed sched -> no_failure sched.
Proof.
  induction 1 as [|e sched [block He] _ IH]; constructor; [|exact IH].
  rewrite He. discriminate.
Qed.

(** On top of [Steady], for every schedule without failed fetches: the
    promise is resolved only once the cursor is past the range. *)
Record Settling (a : ScanArgs) (s : Scan) : Prop := {
  se_steady : Steady a s;
  se_late : promise s <> None -> blockNumber s = stoppingBlock a + 1
}.

Lemma deliver_settling a s i ans s' :
  Settling a s -> ans <> AnswerError -> deliver a s i ans = Some s' ->
  Settling a s'.
Proof.
  intros [Hs Hlate] Hans Hdel.
  destruct (deliver_steady _ _ _ _ _ Hs Hans Hdel) as (Hs' & _ & _).
  constructor; [exact Hs'|].
  destruct Hs as [He Hlo Hhi Hc Ht Hd]. unfold deliver in Hdel.
  destruct (nth_error (inFlight s) i) as [f|] eqn:Hf; [|discriminate].
  injection Hdel as <-.
  destruct (getBlock_callback_block a f ans
              (set_inFlight (remove_nth i (inFlight s)) s) Hans)
    as (tty & block & ->).
  destruct (scanBlockCallback_only_results a block
              (set_inFlight (remove_nth i (inFlight s)) s))
    as (_ & Rb & Re & _ & _ & Rp & _).
  remember (scanBlockCallback a block
              (set_inFlight (remove_nth i (inFlight s)) s)) as s2 eqn:Es2.
  clear Es2. fields.
  destruct (Z_le_gt_dec (blockNumber s2) (stoppingBlock a)) as [Hin | Hout].
  - rewrite asyncScanNextBlock_claims by congruence. cbv zeta. fields.
    rewrite Rp. intros Hp. specialize (Hlate Hp). lia.
  - rewrite asyncScanNextBlock_exits by (right; lia).
    destruct (exitThread_frame a tty s2) as (_ & Eb & _).
    intros _. rewrite Eb. lia.
Qed.

Lemma run_settling a sched : forall s s',
  Settling a s -> no_failure sched -> run a s sched = Some s' ->
  Settling a s'.
Proof.
  induction sched as [|[i ans] sched IH]; intros s s' Hs Hnf Hrun.
  - now injection Hrun as <-.
  - cbn [run] in Hrun. inversion Hnf as [|? ? Hans Hnf']; subst.
    cbn [snd] in Hans.
    destruct (deliver a s i ans) as [s1|] eqn:Hd; [|discriminate].
    eauto using deliver_settling.
Qed.

(** On top of [Steady], while the terminal has had room at every turn:
    the callback has been called exactly when the thread counter is 0,
    and the promise is resolved only once the cursor is past the range,
    and at the latest when the counter is 0. *)
Record Finishing (a : ScanArgs) (s : Scan) : Prop := {
  fi_steady : Steady a s;
  fi_calls :
    callbackCalls s
    = if (numThreads s =? 0) && callback a
      then [(false, stoppingBlock a)] else [];
  fi_late : promise s <> None -> blockNumber s = stoppingBlock a + 1;
  fi_done : numThreads s = 0 -> promise s <> None
}.

Lemma spawning_finishing a s :
  startingBlock a <= stoppingBlock a ->
  Spawning a (spawned a) s -> Finishing a s.
Proof.
  intros Hle Hsp. pose proof (spawning_steady a s Hle Hsp) as Hs.
  destruct Hsp as [Hnt He Hb Ht Hl Hp Hc Hpr Hcc Hr].
  assert (1 <= spawned a) by (unfold spawned, maxThreads; lia).
  constructor; try assumption.
  - rewrite Hcc. destruct (numThreads s =? 0) eqn:E;
      [apply Z.eqb_eq in E; lia | reflexivity].
  - rewrite Hpr. intros H0. now contradiction H0.
  - lia.
Qed.

Lemma deliver_finishing a s i block s' :
  Finishing a s -> deliver a s i (AnswerBlock block) = Some s' ->
  Finishing a s'.
Proof.
  intros [Hs Hcalls Hlate Hdone] Hdel.
  assert (Hne : AnswerBlock block <> AnswerError) by discriminate.
  destruct (deliver_steady _ _ _ _ _ Hs Hne Hdel) as (Hs' & _ & _).
  destruct Hs as [He Hlo Hhi Hc Ht Hd].
  unfold deliver in Hdel.
  destruct (nth_error (inFlight s) i) as [f|] eqn:Hf; [|discriminate].
  injection Hdel as <-. cbn [getBlock_callback] in *.
  pose proof (remove_nth_length _ _ _ Hf) as Hlen.
  assert (Hcalls0 : callbackCalls s = []).
  { rewrite Hcalls. destruct (numThreads s =? 0) eqn:E;
      [apply Z.eqb_eq in E; lia | reflexivity]. }
  destruct (scanBlockCallback_only_results a block
              (set_inFlight (remove_nth i (inFlight s)) s))
    as (Rq & Rb & Re & Rt & Rf & Rp & Rc).
  remember (scanBlockCallback a block
              (set_inFlight (remove_nth i (inFlight s)) s)) as s2 eqn:Es2.
  clear Es2. fields.
  destruct (Z_le_gt_dec (blockNumber s2) (stoppingBlock a)) as [Hin | Hout].
  - rewrite asyncScanNextBlock_claims in * by congruence.
    cbv zeta in *. constructor; fields; try assumption.
    + rewrite Rc, Rt, Hcalls0.
      destruct (numThreads s =? 0) eqn:E;
        [apply Z.eqb_eq in E; lia | reflexivity].
    + rewrite Rp. intros Hp. specialize (Hlate Hp). lia.
    + rewrite Rt. lia.
  - rewrite asyncScanNextBlock_exits in * by (right; lia).
    destruct (exitThread_frame a LineFits s2) as (_ & Eb & _ & Et & _ & _).
    pose proof (exitThread_calls a LineFits s2) as Ec.
    pose proof (exitThread_promise a LineFits s2) as Ep.
    cbv iota in Ec, Ep.
    constructor; try assumption.
    + rewrite Ec, Et, Rc, Re, He, Hcalls0. reflexivity.
    + intros _. rewrite Eb. lia.
    + intros _. rewrite Ep. destruct (promise s2); discriminate.
Qed.

Lemma run_finishing a sched : forall s s',
  Finishing a s -> all_printed sched -> run a s sched = Some s' ->
  Finishing a s'.
Proof.
  induction sched as [|[i ans] sched IH]; intros s s' Hs Hnf Hrun.
  - now injection Hrun as <-.
  - cbn [run] in Hrun. inversion Hnf as [|? ? [block Hans] Hnf']; subst.
    cbn [snd] in Hans. subst ans.
    destruct (deliver a s i (AnswerBlock block)) as [s1|] eqn:Hd; [|discriminate].
    eauto using deliver_finishing.
Qed.

Lemma scanBlockRange_finishing account chainHead start stop cb :
  let a := scan_args account chainHead start stop cb in
  startingBlock a <= stoppingBlock a ->
  Finishing a (scanBlockRange account chainHead start stop cb).
Proof.
  intros a Hle.
  destruct (scanBlockRange_initially account chainHead start stop cb)
    as [[Hgt _] | [_ H]]; [fold a in Hgt; lia|].
  now apply spawning_finishing.
Qed.

Lemma scan_args_callback account chainHead start stop cb :
  callback (scan_args account chainHead start stop cb) = cb.
Proof.
  unfold scan_args.
  destruct (resolve_heights chainHead start stop) as [[asked b] e].
  reflexivity.
Qed.

(** A scan of a valid range ends well when no fetch fails and the
    terminal has room for the final line at every turn: once the last
    worker has left, the promise is resolved, the callback, if one was
    passed, has been called exactly once, with [gotError = false] and
    the stopping height, and [results] holds the transfers of all
    answered blocks in the order of the answers.  When the last worker
    leaves in front of a terminal without room, the scan is over as
    well, but neither is the callback called nor the promise resolved by
    that exit. *)
Theorem failure_free_scan_reports_completion_once
  account chainHead start stop cb sched s :
  let a := scan_args account chainHead start stop cb in
  startingBlock a <= stoppingBlock a ->
  run a (scanBlockRange account chainHead start stop cb) sched = Some s ->
  quiescent s ->
  (all_printed sched ->
   numThreads s = 0 /\ gotError s = false /\ promise s <> None
   /\ callbackCalls s = (if cb then [(false, stoppingBlock a)] else [])
   /\ results s = answered_transfers a sched)
  /\ (forall earlier i block,
         sched = earlier ++ [(i, AnswerBlockNoRoom block)] ->
         no_failure earlier ->
         numThreads s = 0 /\ callbackCalls s = []
         /\ exists before,
              run a (scanBlockRange account chainHead start stop cb) earlier
              = Some before
              /\ promise s = promise before).
Proof.
  intros a Hle Hrun Hq. split.
  - intros Hnf.
    pose proof (scanBlockRange_finishing account chainHead start stop cb Hle)
      as Hf.
    destruct (run_finishing _ _ _ _ Hf Hnf Hrun) as [[He _ _ _ Ht _] Hc _ Hd].
    unfold quiescent in Hq. rewrite Hq in Ht. cbn in Ht.
    rewrite Ht in Hc. cbn [Z.eqb andb] in Hc.
    rewrite scan_args_callback in Hc. fold a in Hc.
    repeat split; try assumption; [now apply Hd|].
    rewrite (results_hold_the_answered_blocks _ _ _ _ Hrun).
    destruct (scanBlockRange_initially account chainHead start stop cb)
      as [[_ H] | [_ H]]; now rewrite (sp_results _ _ _ H).
  - intros earlier i block -> Hnf.
    destruct (run_app _ _ _ _ _ Hrun) as (before & Hbefore & Hlast).
    cbn [run] in Hlast.
    destruct (deliver a before i (AnswerBlockNoRoom block)) as [s1|] eqn:Hd;
      [|discriminate].
    injection Hlast as ->.
    assert (Hs0 : Steady a (scanBlockRange account chainHead start stop cb)).
    { destruct (scanBlockRange_initially account chainHead start stop cb)
        as [[Hgt _] | [_ H]]; [fold a in Hgt; lia|].
      now apply spawning_steady. }
    assert (Hc0 : Counted (scanBlockRange account chainHead start stop cb)).
    { destruct (scanBlockRange_initially account chainHead start stop cb)
        as [[_ H] | [_ H]]; eapply spawning_counted, H. }
    destruct (run_steady _ _ _ _ Hs0 Hnf Hbefore) as (Hsb & _ & _).
    pose proof (run_counted _ _ _ _ Hc0 Hbefore) as Hcb.
    assert (Hne : AnswerBlockNoRoom block <> AnswerError) by discriminate.
    destruct (deliver_steady _ _ _ _ _ Hsb Hne Hd) as ([_ _ _ _ Ht _] & _ & _).
    unfold quiescent in Hq. rewrite Hq in Ht. cbn in Ht.
    split; [exact Ht|].
    destruct Hsb as [He Hlo Hhi Hc Htb Hdb]. destruct Hcb as [Hl Hdd Hfl Hi].
    unfold deliver in Hd.
    destruct (nth_error (inFlight before) i) as [f|] eqn:Hf; [|discriminate].
    injection Hd as <-. cbn [getBlock_callback] in *.
    pose proof (remove_nth_length _ _ _ Hf) as Hlen.
    assert (Hcalls0 : callbackCalls before = []).
    { destruct (callbackCalls before) eqn:E; [reflexivity|].
      assert (numThreads before = 0) by (apply Hi; discriminate). lia. }
    destruct (scanBlockCallback_only_results a block
                (set_inFlight (remove_nth i (inFlight before)) before))
      as (_ & Rb & Re & Rt & Rf & Rp & Rc).
    remember (scanBlockCallback a block
                (set_inFlight (remove_nth i (inFlight before)) before))
      as s2 eqn:Es2.
    clear Es2. fields.
    destruct (Z_le_gt_dec (blockNumber s2) (stoppingBlock a)) as [Hin | Hout].
    + rewrite asyncScanNextBlock_claims in Hq by congruence.
      cbv zeta in Hq. fields. apply app_eq_nil in Hq as [_ Hq]. discriminate.
    + rewrite asyncScanNextBlock_exits in * by (right; lia).
      destruct (exitThread_frame a NoRoom s2) as (_ & _ & _ & Et & _ & _).
      pose proof (exitThread_calls a NoRoom s2) as Ec.
      pose proof (exitThread_promise a NoRoom s2) as Ep.
      cbv iota in Ec, Ep. rewrite Et in Ht.
      replace (numThreads s2 - 1 =? 0) with true in Ep
        by (symmetry; apply Z.eqb_eq; lia).
      split; [congruence|]. exists before. split; [exact Hbefore | congruence].
Qed.

Lemma failure_free_scan_reports_completion_once_witness :
  (numThreads three_blocks_end = 0 /\ gotError three_blocks_end = false
   /\ promise three_blocks_end <> None
   /\ callbackCalls three_blocks_end = [(false, 3)]
   /\ results three_blocks_end = answered_transfers three_blocks oldest_first)
  /\ (numThreads one_block_end = 0 /\ callbackCalls one_block_end = []
      /\ exists before,
           run one_block (scanBlockRange watched 50 (Some 3) (Some 3) true) []
           = Some before
           /\ promise one_block_end = promise before)
  /\ promise one_block_end = None.
Proof.
  split; [|split; [|reflexivity]].
  - apply (proj1 (failure_free_scan_reports_completion_once watched 50 (Some 1)
                    (Some 3) true oldest_first three_blocks_end
                    ltac:(cbn; lia) ltac:(vm_compute; reflexivity) eq_refl)).
    repeat constructor; eexists; reflexivity.
  - apply (proj2 (failure_free_scan_reports_completion_once watched 50 (Some 3)
                    (Some 3) true unprinted one_block_end
                    ltac:(cbn; lia) ltac:(vm_compute; reflexivity) eq_refl)
             [] 0%nat block_with_credit).
    + reflexivity.
    + constructor.
Defined.

(** In a scan without failed fetches the promise is not resolved before
    every height of the range has been requested from the node, and the
    callback is not called while a fetch is in flight. *)
Theorem promise_pending_until_range_is_requested
  account chainHead start stop cb sched s :
  let a := scan_args account chainHead start stop cb in
  startingBlock a <= stoppingBlock a ->
  no_failure sched ->
  run a (scanBlockRange account chainHead start stop cb) sched = Some s ->
  (promise s <> None ->
   claimed s
   = heights_from (startingBlock a)
       (Z.to_nat (stoppingBlock a - startingBlock a + 1)))
  /\ (inFlight s <> [] -> callbackCalls s = []).
Proof.
  intros a Hle Hnf Hrun.
  assert (Hs0 : Settling a (scanBlockRange account chainHead start stop cb)).
  { destruct (scanBlockRange_initially account chainHead start stop cb)
      as [[Hgt _] | [_ H]]; [fold a in Hgt; lia|].
    constructor; [now apply spawning_steady|].
    rewrite (sp_promise _ _ _ H). intros H0. now contradiction H0. }
  assert (Hc0 : Counted (scanBlockRange account chainHead start stop cb)).
  { destruct (scanBlockRange_initially account chainHead start stop cb)
      as [[_ H] | [_ H]]; eapply spawning_counted, H. }
  destruct (run_settling _ _ _ _ Hs0 Hnf Hrun) as [[He _ _ Hcl Ht _] Hlate].
  destruct (run_counted _ _ _ _ Hc0 Hrun) as [_ _ _ Hi].
  subst a. split.
  - intros Hp. rewrite Hcl, (Hlate Hp). do 2 f_equal. lia.
  - intros Hne. destruct (callbackCalls s) eqn:E; [reflexivity|].
    assert (Hn : numThreads s = 0) by (apply Hi; discriminate).
    rewrite Hn in Ht.
    destruct (inFlight s); [now contradiction Hne | cbn in Ht; lia].
Qed.

Lemma promise_pending_until_range_is_requested_witness :
  (promise three_blocks_end <> None -> claimed three_blocks_end = [1; 2; 3])
  /\ (inFlight three_blocks_end <> [] -> callbackCalls three_blocks_end = []).
Proof.
  apply (promise_pending_until_range_is_requested watched 50 (Some 1) (Some 3)
           true oldest_first three_blocks_end).
  - cbn. lia.
  - repeat constructor; discriminate.
  - vm_compute. reflexivity.
Defined.

(** *** The completion callback under any schedule *)

Definition called_at_most_once (a : ScanArgs) (s : Scan) : Prop :=
  callbackCalls s = [] \/ callbackCalls s = [(false, stoppingBlock a)].

Lemma deliver_called_at_most_once a s i ans s' :
  Counted s -> deliver a s i ans = Some s' -> called_at_most_once a s'.
Proof.
  intros [Hl Hd Hf Hi] Hdel. unfold deliver in Hdel.
  destruct (nth_error (inFlight s) i) as [f|] eqn:Hnth; [|discriminate].
  injection Hdel as <-.
  pose proof (remove_nth_length _ _ _ Hnth) as Hlen.
  assert (Hc : callbackCalls s = []).
  { destruct (callbackCalls s) eqn:E; [reflexivity|].
    assert (numThreads s = 0) by (apply Hi; discriminate). lia. }
  unfold called_at_most_once.
  destruct (Answer_eq_error ans) as [-> | Hans]; cbn [getBlock_callback];
    [left; exact Hc|].
  destruct (getBlock_callback_block a f ans
              (set_inFlight (remove_nth i (inFlight s)) s) Hans)
    as (tty & block & ->).
  destruct (scanBlockCallback_only_results a block
              (set_inFlight (remove_nth i (inFlight s)) s))
    as (_ & _ & Re & Rt & _ & _ & Rc).
  remember (scanBlockCallback a block
              (set_inFlight (remove_nth i (inFlight s)) s)) as s2 eqn:Es2.
  clear Es2. fields.
  unfold asyncScanNextBlock.
  assert (Hexit : callbackCalls (exitThread a tty s2) = []
                  \/ callbackCalls (exitThread a tty s2)
                     = [(false, stoppingBlock a)]).
  { destruct (exitThread_calls_cases a tty s2) as [Ec | (E & _ & _ & Ec)];
      rewrite Ec, Rc, Hc; [now left|].
    right. rewrite Rt in E. rewrite Re.
    destruct (gotError s); [specialize (Hd eq_refl); lia | reflexivity]. }
  destruct (gotError s2); [exact Hexit|].
  destruct (blockNumber s2 >? stoppingBlock a); [exact Hexit|].
  left. fields. congruence.
Qed.

Lemma run_called_at_most_once a sched : forall s s',
  Counted s -> called_at_most_once a s -> run a s sched = Some s' ->
  called_at_most_once a s'.
Proof.
  induction sched as [|[i ans] sched IH]; intros s s' Hc Hs Hrun;
    cbn [run] in Hrun.
  - now injection Hrun as <-.
  - destruct (deliver a s i ans) as [s1|] eqn:Hd; [|discriminate].
    eauto using deliver_counted, deliver_called_at_most_once.
Qed.

(** Whatever the node answers, the callback is called at most once, with
    [gotError = false] and the stopping height, and only when no worker
    is left; after a failed fetch, or without a callback argument, it is
    not called at all. *)
Theorem callback_is_called_at_most_once_and_last
  account chainHead start stop cb sched s :
  let a := scan_args account chainHead start stop cb in
  run a (scanBlockRange account chainHead start stop cb) sched = Some s ->
  (callbackCalls s = [] \/ callbackCalls s = [(false, stoppingBlock a)])
  /\ (callbackCalls s <> [] ->
      quiescent s /\ numThreads s = 0 /\ gotError s = false /\ cb = true)
  /\ (gotError s = true -> callbackCalls s = []).
Proof.
  intros a Hrun.
  destruct (scanBlockRange_start account chainHead start stop cb)
    as (asked & E & _).
  fold a in E. rewrite E in Hrun.
  pose proof (start_scan_counted a asked) as Hc0.
  assert (Hs0 : called_at_most_once a (start_scan a asked)).
  { left. destruct (Z_le_gt_dec (startingBlock a) (stoppingBlock a)).
    - now apply (sp_calls _ _ _ (start_scan_spawning a asked l)).
    - rewrite start_scan_invalid by lia. reflexivity. }
  pose proof (run_called_at_most_once _ _ _ _ Hc0 Hs0 Hrun) as Hs.
  destruct (callback_never_reports_error a asked sched s Hrun) as [_ Hne].
  split; [exact Hs|]. split; [|exact Hne].
  intros Hcalls.
  destruct (callback_waits_for_all_workers a asked sched s Hrun Hcalls)
    as [Hq Hn].
  repeat split; try assumption.
  - destruct (gotError s); [now specialize (Hne eq_refl) | reflexivity].
  - assert (Hcb : forall sched s0 s1,
               callback a = false -> callbackCalls s0 = [] ->
               run a s0 sched = Some s1 -> callbackCalls s1 = []).
    { clear. induction sched as [|[i ans] sched IH]; intros s0 s1 Hcb H0 Hrun;
        cbn [run] in Hrun; [now injection Hrun as <-|].
      destruct (deliver a s0 i ans) as [s2|] eqn:Hd; [|discriminate].
      apply (IH s2 s1 Hcb); [|assumption]. unfold deliver in Hd.
      destruct (nth_error (inFlight s0) i) as [f|]; [|discriminate].
      injection Hd as <-.
      destruct (Answer_eq_error ans) as [-> | Hans]; cbn [getBlock_callback];
        [exact H0|].
      destruct (getBlock_callback_block a f ans
                  (set_inFlight (remove_nth i (inFlight s0)) s0) Hans)
        as (tty & block & ->).
      destruct (scanBlockCallback_only_results a block
                  (set_inFlight (remove_nth i (inFlight s0)) s0))
        as (_ & _ & _ & _ & _ & _ & Rc).
      fields. unfold asyncScanNextBlock.
      assert (Hexit : forall s, callbackCalls s = [] ->
                                callbackCalls (exitThread a tty s) = []).
      { intros s Hs.
        destruct (exitThread_calls_cases a tty s) as [Ec | (_ & E & _)];
          congruence. }
      destruct (gotError _); [apply Hexit; congruence|].
      destruct (_ >? _); [apply Hexit; congruence | fields; congruence]. }
    destruct cb; [reflexivity|]. exfalso. apply Hcalls.
    apply (Hcb sched (start_scan a asked) s); try assumption.
    + unfold a. apply scan_args_callback.
    + destruct Hs0 as [H0 | H0]; [exact H0|].
      destruct (Z_le_gt_dec (startingBlock a) (stoppingBlock a)).
      * now apply (sp_calls _ _ _ (start_scan_spawning a asked l)).
      * rewrite start_scan_invalid by lia. reflexivity.
Qed.

Lemma callback_is_called_at_most_once_and_last_witness :
  (callbackCalls three_blocks_end = []
   \/ callbackCalls three_blocks_end = [(false, 3)])
  /\ (callbackCalls three_blocks_end <> [] ->
      quiescent three_blocks_end /\ numThreads three_blocks_end = 0
      /\ gotError three_blocks_end = false /\ true = true)
  /\ (gotError three_blocks_end = true -> callbackCalls three_blocks_end = []).
Proof.
  apply (callback_is_called_at_most_once_and_last watched 50 (Some 1) (Some 3)
           true oldest_first three_blocks_end).
  vm_compute. reflexivity.
Defined.

(** *** How long a scan without failures takes *)

(** A scan of a valid range in which no fetch fails takes one answer per
    height: it cannot be answered more often than the range has heights,
    it is over exactly when that many answers have come, and from
    wherever it stands it can be brought to its end. *)
Theorem failure_free_scan_takes_one_answer_per_height
  (node : Z -> Block) account chainHead start stop cb sched s :
  let a := scan_args account chainHead start stop cb in
  startingBlock a <= stoppingBlock a ->
  no_failure sched ->
  run a (scanBlockRange account chainHead start stop cb) sched = Some s ->
  Z.of_nat (List.length sched) <= stoppingBlock a - startingBlock a + 1
  /\ (quiescent s <->
      Z.of_nat (List.length sched) = stoppingBlock a - startingBlock a + 1)
  /\ exists rest s',
       no_failure rest /\ run a s rest = Some s' /\ quiescent s'
       /\ Z.of_nat (List.length sched + List.length rest)
          = stoppingBlock a - startingBlock a + 1.
Proof.
  intros a Hle Hnf Hrun.
  destruct (scanBlockRange_start account chainHead start stop cb)
    as (asked & E & _).
  fold a in E. rewrite E in Hrun.
  destruct (failure_free_schedule_length a asked sched s Hle Hnf Hrun)
    as [Hlen Hiff].
  split; [exact Hlen|]. split; [exact Hiff|].
  pose proof (spawning_steady a _ Hle (start_scan_spawning a asked Hle)) as Hs0.
  destruct (run_steady _ _ _ _ Hs0 Hnf Hrun) as (Hs & Hr & _).
  rewrite start_scan_remaining in Hr by assumption.
  destruct (steady_completes node a (Z.to_nat (remaining a s)) s Hs)
    as (rest & s' & Hnf' & Hl' & Hrun' & Hq').
  { destruct Hs as [_ _ Hhi _ _ _]. unfold remaining in *. lia. }
  exists rest, s'. repeat split; try assumption.
  destruct Hs as [_ _ Hhi _ _ _]. unfold remaining in *. lia.
Qed.

Lemma failure_free_scan_takes_one_answer_per_height_witness :
  Z.of_nat (List.length oldest_first) <= 3 - 1 + 1
  /\ (quiescent three_blocks_end <-> Z.of_nat (List.length oldest_first) = 3 - 1 + 1)
  /\ exists rest s',
       no_failure rest /\ run three_blocks three_blocks_end rest = Some s'
       /\ quiescent s'
       /\ Z.of_nat (List.length oldest_first + List.length rest) = 3 - 1 + 1.
Proof.
  apply (failure_free_scan_takes_one_answer_per_height (fun _ => empty_block)
           watched 50 (Some 1) (Some 3) true oldest_first three_blocks_end).
  - cbn. lia.
  - repeat constructor; discriminate.
  - vm_compute. reflexivity.
Defined.

(** *** What is recorded *)

Lemma strict_eq_true (x y : JsAddress) : strict_eq x y = true <-> x = y.
Proof.
  destruct x as [| |x], y as [| |y]; cbn; split; intros H;
    try reflexivity; try discriminate H.
  - apply String.eqb_eq in H. now subst.
  - injection H as ->. apply String.eqb_refl.
Qed.

Lemma strict_eq_false (x y : JsAddress) : strict_eq x y = false <-> x <> y.
Proof.
  split.
  - intros H E. apply strict_eq_true in E. congruence.
  - intros H. destruct (strict_eq x y) eqn:E; [|reflexivity].
    apply strict_eq_true in E. contradiction.
Qed.

Lemma scan_args_defaultAccount account chainHead start stop cb :
  defaultAccount (scan_args account chainHead start stop cb) = account.
Proof.
  unfold scan_args.
  destruct (resolve_heights chainHead start stop) as [[asked b] e].
  reflexivity.
Qed.

(** The entry a transaction adds, by the two comparisons. *)
Lemma transfer_cases a txn block :
  (txn_to txn = defaultAccount a
   /\ transfer a txn block
      = [Credit (timestamp block) (txn_value txn) (txn_from txn)])
  \/ (txn_to txn <> defaultAccount a
      /\ JsString (txn_from txn) = defaultAccount a
      /\ transfer a txn block
         = [Debit (timestamp block) (txn_value txn) (txn_to txn)])
  \/ (txn_to txn <> defaultAccount a
      /\ JsString (txn_from txn) <> defaultAccount a
      /\ transfer a txn block = []).
Proof.
  unfold transfer.
  destruct (strict_eq (txn_to txn) (defaultAccount a)) eqn:E1.
  - left. apply strict_eq_true in E1. split; [assumption | reflexivity].
  - apply strict_eq_false in E1. right.
    destruct (strict_eq (JsString (txn_from txn)) (defaultAccount a)) eqn:E2.
    + left. apply strict_eq_true in E2. repeat split; assumption.
    + right. apply strict_eq_false in E2. repeat split; assumption.
Qed.

Lemma in_answered_transfers a sched m :
  In m (answered_transfers a sched) <->
  exists i ans block txns txn,
    In (i, ans) sched /\ answered ans block
    /\ transactions block = Some txns /\ In txn txns
    /\ In m (transfer a txn block).
Proof.
  unfold answered_transfers, answered. rewrite in_flat_map. split.
  - intros ([i ans] & Hin & Hm). cbn [snd] in Hm.
    destruct ans as [|block|block] eqn:Eans; [contradiction| |];
      unfold transfers in Hm;
      (destruct (transactions block) as [txns|] eqn:Et; [|contradiction]);
      apply in_flat_map in Hm as (txn & Htxn & Hm);
      [exists i, (AnswerBlock block), block, txns, txn
      |exists i, (AnswerBlockNoRoom block), block, txns, txn];
      repeat split; auto.
  - intros (i & ans & block & txns & txn & Hin & Hans & Et & Htxn & Hm).
    exists (i, ans). split; [assumption|]. cbn [snd].
    destruct Hans as [-> | ->]; unfold transfers; rewrite Et;
      apply in_flat_map; eauto.
Qed.

(** Whatever the node answers, failures included, [results] holds the
    transfers of the answered blocks and nothing else.  Every entry comes
    from a transaction of an answered block whose [to] is strictly equal
    to [web3.defaultAccount] (a credit) or, if not, whose [from] is (a
    debit), and every such transaction has its entry; so a transaction
    to and from the account is a credit only, and when the default
    account is [null] the transactions with [to: null], those that
    create a contract, are credits. *)
Theorem results_hold_only_watched_transfers
  account chainHead start stop cb sched s :
  let a := scan_args account chainHead start stop cb in
  run a (scanBlockRange account chainHead start stop cb) sched = Some s ->
  results s = answered_transfers a sched
  /\ (forall m, In m (results s) ->
        exists i ans block txns txn,
          In (i, ans) sched /\ answered ans block
          /\ transactions block = Some txns /\ In txn txns
          /\ ((txn_to txn = account
               /\ m = Credit (timestamp block) (txn_value txn) (txn_from txn))
              \/ (txn_to txn <> account /\ JsString (txn_from txn) = account
                  /\ m = Debit (timestamp block) (txn_value txn) (txn_to txn))))
  /\ (forall i ans block txns txn,
         In (i, ans) sched -> answered ans block ->
         transactions block = Some txns -> In txn txns ->
         (txn_to txn = account ->
          In (Credit (timestamp block) (txn_value txn) (txn_from txn))
            (results s)
          /\ ~ In (Debit (timestamp block) (txn_value txn) (txn_to txn))
                 (transfer a txn block))
         /\ (txn_to txn <> account -> JsString (txn_from txn) = account ->
             In (Debit (timestamp block) (txn_value txn) (txn_to txn))
               (results s))).
Proof.
  intros a Hrun.
  assert (Hres : results s = answered_transfers a sched).
  { rewrite (results_hold_the_answered_blocks _ _ _ _ Hrun).
    destruct (scanBlockRange_initially account chainHead start stop cb)
      as [[_ H] | [_ H]]; now rewrite (sp_results _ _ _ H). }
  pose proof (scan_args_defaultAccount account chainHead start stop cb) as Ha.
  fold a in Ha.
  split; [exact Hres|]. rewrite Hres. split.
  - intros m Hm. apply in_answered_transfers in Hm
      as (i & ans & block & txns & txn & Hin & Hans & Et & Htxn & Hm).
    exists i, ans, block, txns, txn. repeat split; try assumption.
    destruct (transfer_cases a txn block)
      as [(H1 & E) | [(H1 & H2 & E) | (H1 & H2 & E)]];
      rewrite E in Hm; rewrite Ha in *.
    + destruct Hm as [<- | []]. left. split; [assumption | reflexivity].
    + destruct Hm as [<- | []]. right. repeat split; assumption.
    + contradiction.
  - intros i ans block txns txn Hin Hans Et Htxn. split.
    + intros Hto.
      destruct (transfer_cases a txn block)
        as [(H1 & E) | [(H1 & H2 & E) | (H1 & H2 & E)]];
        rewrite Ha in *; try contradiction.
      split.
      * apply in_answered_transfers.
        exists i, ans, block, txns, txn. repeat split; try assumption.
        rewrite E. now left.
      * rewrite E. intros [H | []]. discriminate H.
    + intros Hto Hfrom.
      destruct (transfer_cases a txn block)
        as [(H1 & E) | [(H1 & H2 & E) | (H1 & H2 & E)]];
        rewrite Ha in *; try contradiction.
      apply in_answered_transfers.
      exists i, ans, block, txns, txn. repeat split; try assumption.
      rewrite E. now left.
Qed.

Lemma results_hold_only_watched_transfers_witness :
  results three_blocks_end = answered_transfers three_blocks oldest_first
  /\ results three_blocks_end = [Credit 1700000000 5 "0xpeer"%string]
  /\ In (Credit 1700000030 0 "0xdev"%string) (results no_wallet_end).
Proof.
  split; [|split; [reflexivity|]].
  - apply (results_hold_only_watched_transfers watched 50 (Some 1) (Some 3) true
             oldest_first three_blocks_end).
    vm_compute. reflexivity.
  - apply (proj1 (proj1 (proj2 (proj2
             (results_hold_only_watched_transfers JsNull 50 (Some 3) (Some 3)
                false [(0%nat, AnswerBlock block_with_creation)] no_wallet_end
                ltac:(vm_compute; reflexivity)))
             0%nat (AnswerBlock block_with_creation) block_with_creation
             [creation] creation
             (or_introl eq_refl) (or_introl eq_refl) eq_refl
             (or_introl eq_refl))
             eq_refl)).
Defined.

End ScannerFacts.

(* ===================================================================== *)
(** ** Facts about logging in *)
(* ===================================================================== *)

Module AccountsFacts.
Import Accounts MoreSamples InvokerFacts.

Lemma login_cases decrypt e keystore password :
  (login decrypt e keystore password = (e, inr None)
   /\ (truthy_string keystore = false \/ truthy_string password = false))
  \/ (exists k p err,
         keystore = Some k /\ password = Some p
         /\ truthy_string keystore = true /\ truthy_string password = true
         /\ decrypt k p = inl err
         /\ login decrypt e keystore password = (e, inl err))
  \/ (exists k p w,
         keystore = Some k /\ password = Some p
         /\ truthy_string keystore = true /\ truthy_string password = true
         /\ decrypt k p = inr w
         /\ login decrypt e keystore password
            = ({| this := set_defaultWallet (address w) (this e);
                  web3 := {| defaultAccount := defaultAccount (web3 e);
                             eth_defaultAccount := Some (address w);
                             wallet := wallet (web3 e) ++ [w] |} |},
               inr (Some w))).
Proof.
  unfold login.
  destruct (truthy_string keystore) eqn:Ek; [|left; split; [reflexivity | now left]].
  destruct (truthy_string password) eqn:Ep; [|left; split; [reflexivity | now right]].
  destruct keystore as [k|]; [|discriminate]. destruct password as [pw|]; [|discriminate].
  cbn [negb orb]. right.
  destruct (decrypt k pw) as [err | w] eqn:Ed.
  - left. exists k, pw, err. repeat split; assumption.
  - right. exists k, pw, w. repeat split; assumption.
Qed.

(** [login] gets an account only from [accounts.decrypt], called with a
    non-empty keystore and password; when either is missing or empty it
    returns [undefined] without asking the library, and whenever it does
    not return an account (skipped, or [decrypt] threw) the engine and
    its web3 object are exactly as before. *)
Theorem login_without_account_changes_nothing decrypt e keystore password :
  (truthy_string keystore = false \/ truthy_string password = false ->
   login decrypt e keystore password = (e, inr None))
  /\ ((forall w, snd (login decrypt e keystore password) <> inr (Some w)) ->
      fst (login decrypt e keystore password) = e)
  /\ (forall w,
         snd (login decrypt e keystore password) = inr (Some w) ->
         exists k p,
           keystore = Some k /\ password = Some p
           /\ k <> EmptyString /\ p <> EmptyString
           /\ decrypt k p = inr w).
Proof.
  destruct (login_cases decrypt e keystore password)
    as [[E Hf] | [(k & p & err & -> & -> & Tk & Tp & Hd & E)
                 | (k & p & w & -> & -> & Tk & Tp & Hd & E)]];
    rewrite E; cbn [fst snd].
  - repeat split; try reflexivity. intros w H. discriminate H.
  - split; [intros [H | H]; congruence|].
    split; [reflexivity | intros w H; discriminate H].
  - split; [intros [H | H]; congruence|]. split.
    + intros H. now contradiction (H w).
    + intros w' H. injection H as <-. exists k, p.
      repeat split; try assumption; intros ->; discriminate.
Qed.

Lemma login_without_account_changes_nothing_witness :
  Accounts.login decrypt_alice fresh_engine (Some "alice.json"%string)
    (Some ""%string) = (fresh_engine, inr None)
  /\ exists k p,
       Some "alice.json"%string = Some k /\ Some "secret"%string = Some p
       /\ k <> EmptyString /\ p <> EmptyString /\ decrypt_alice k p = inr alice.
Proof.
  split.
  - apply (proj1 (login_without_account_changes_nothing decrypt_alice
                    fresh_engine (Some "alice.json"%string) (Some ""%string))).
    right. reflexivity.
  - apply (proj2 (proj2 (login_without_account_changes_nothing decrypt_alice
                           fresh_engine (Some "alice.json"%string)
                           (Some "secret"%string))) alice).
    reflexivity.
Defined.

Lemma latest_app {A : Type} (l : list A) (x : A) : latest (l ++ [x]) = Some x.
Proof.
  unfold latest. rewrite map_app. cbn [map]. apply last_last.
Qed.

Lemma latest_cons {A : Type} (x : A) (l : list A) :
  latest (x :: l) = match latest l with Some y => Some y | None => Some x end.
Proof.
  unfold latest. induction l as [|y l IH] using rev_ind.
  - reflexivity.
  - rewrite app_comm_cons, !map_app. cbn [map]. now rewrite !last_last.
Qed.

(** What a run of logins leaves, from any engine. *)
Lemma logins_from decrypt attempts : forall e,
  let e' := logins decrypt e attempts in
  let accounts := logged_in decrypt e attempts in
  defaultAccount (web3 e') = defaultAccount (web3 e)
  /\ wallet (web3 e') = wallet (web3 e) ++ accounts
  /\ eth_defaultAccount (web3 e')
     = match latest accounts with
       | Some w => Some (address w)
       | None => eth_defaultAccount (web3 e)
       end
  /\ Invoker.defaultWallet (Invoker.configuration (this e'))
     = match latest accounts with
       | Some w => Some (address w)
       | None => Invoker.defaultWallet (Invoker.configuration (this e))
       end
  /\ Invoker.contractAddress (Invoker.configuration (this e'))
     = Invoker.contractAddress (Invoker.configuration (this e))
  /\ Invoker.abiConfiguration (this e') = Invoker.abiConfiguration (this e)
  /\ Invoker.bin (this e') = Invoker.bin (this e)
  /\ accounts = flat_map (fun attempt => match accepted decrypt attempt with
                                         | Some w => [w]
                                         | None => []
                                         end) attempts.
Proof.
  induction attempts as [|[k p] rest IH]; intros e; cbn [logins logged_in flat_map].
  - cbn. rewrite app_nil_r. repeat split; reflexivity.
  - specialize (IH (fst (login decrypt e k p))). cbn zeta in IH.
    destruct IH as (I1 & I2 & I3 & I4 & I5 & I6 & I7 & I8).
    destruct (login_cases decrypt e k p)
      as [[E Hf] | [(k' & p' & err & -> & -> & Tk & Tp & Hd & E)
                   | (k' & p' & w & -> & -> & Tk & Tp & Hd & E)]];
      rewrite E in *; cbn [fst snd] in *.
    + assert (Ha : accepted decrypt (k, p) = None).
      { destruct k as [[|c k]|], p as [[|d p]|]; cbn in Hf |- *;
          try reflexivity; destruct Hf; discriminate. }
      rewrite Ha. cbn [app]. repeat split; assumption.
    + assert (Ha : accepted decrypt (Some k', Some p') = None).
      { destruct k' as [|c k'], p' as [|d p']; cbn; try reflexivity.
        now rewrite Hd. }
      rewrite Ha. cbn [app]. repeat split; assumption.
    + assert (Ha : accepted decrypt (Some k', Some p') = Some w).
      { destruct k' as [|c k'], p' as [|d p']; try discriminate.
        cbn. now rewrite Hd. }
      rewrite Ha. cbn [app web3 this wallet eth_defaultAccount defaultAccount] in *.
      rewrite latest_cons.
      unfold set_defaultWallet in *.
      cbn [Invoker.configuration Invoker.defaultWallet Invoker.contractAddress
           Invoker.abiConfiguration Invoker.bin] in *.
      rewrite <- app_assoc in I2. cbn [app] in I2.
      split; [assumption|]. split; [assumption|].
      split; [rewrite I3; now destruct (latest _)|].
      split; [rewrite I4; now destruct (latest _)|].
      split; [assumption|]. split; [assumption|]. split; [assumption|].
      now rewrite I8.
Qed.

(** The account [scanBlockRange] compares transactions with is
    [web3.defaultAccount], which only the constructor writes: however
    many logins follow, it stays the [defaultWallet] the engine was built
    with, and so does the scan.  The wallet holds the accounts the
    logins returned, in order; they are those of the attempts with a
    non-empty keystore and password that [accounts.decrypt] accepts.
    [web3.eth.defaultAccount] and [configuration.defaultWallet] hold the
    address of the last of them, and what the constructor left while
    there is none. *)
Theorem logins_do_not_move_the_watched_account
  decrypt abiConfiguration configuration bin attempts :
  let e0 := construct abiConfiguration configuration bin in
  let e := logins decrypt e0 attempts in
  let accounts := logged_in decrypt e0 attempts in
  defaultAccount (web3 e) = Invoker.defaultWallet configuration
  /\ (forall chainHead start stop cb,
         scanBlockRange e chainHead start stop cb
         = Scanner.scanBlockRange
             (js_address (Invoker.defaultWallet configuration))
             chainHead start stop cb)
  /\ wallet (web3 e) = accounts
  /\ accounts = flat_map (fun attempt => match accepted decrypt attempt with
                                         | Some w => [w]
                                         | None => []
                                         end) attempts
  /\ eth_defaultAccount (web3 e)
     = match latest accounts with
       | Some w => Some (address w)
       | None => None
       end
  /\ Invoker.defaultWallet (Invoker.configuration (this e))
     = match latest accounts with
       | Some w => Some (address w)
       | None => Invoker.defaultWallet configuration
       end.
Proof.
  intros e0 e accounts.
  destruct (logins_from decrypt attempts e0)
    as (H1 & H2 & H3 & H4 & _ & _ & _ & H8).
  fold e in H1, H2, H3, H4. fold accounts in H2, H3, H4, H8.
  cbn in H1, H2, H3, H4.
  split; [exact H1|].
  split; [intros; unfold scanBlockRange; now rewrite H1|].
  split; [exact H2|]. split; [exact H8|]. split; assumption.
Qed.

(** After a login the ad-hoc calls, those given an [abi] and a non-empty
    [contractAddress], ask for their gas estimate with the logged-in
    account as [to]; the calls of the bound contract keep asking with
    the [defaultWallet] property of the bound ABI, which no login
    changes. *)
Theorem adhoc_calls_estimate_for_the_logged_in_account
  decrypt e keystore password w e' w3 name params gp conf abi addr data to :
  login decrypt e keystore password = (e', inr (Some w)) ->
  In (Invoker.EstimateGas data to)
    (Invoker.requests
       (Invoker.callFunction (this e') w3 name params gp conf abi addr)) ->
  (abi <> None /\ truthy_string addr = true -> to = Some (address w))
  /\ (abi = None \/ truthy_string addr = false ->
      exists cfg,
        Invoker.abiConfiguration (this e) = Some cfg
        /\ to = Invoker.abi_defaultWallet cfg).
Proof.
  intros Hlogin.
  destruct (login_cases decrypt e keystore password)
    as [[E _] | [(k & p & err & _ & _ & _ & _ & _ & E)
                | (k & p & w' & _ & _ & _ & _ & _ & E)]];
    rewrite E in Hlogin; try discriminate Hlogin.
  injection Hlogin as <- <-.
  cbn [this set_defaultWallet].
  unfold Invoker.callFunction, Invoker.callFunction_body, Invoker.dispatch,
    Invoker.getContractCode, Invoker.await, Invoker.deref, Invoker.request,
    Invoker.read_options, Invoker.update_options, Invoker.bind, Invoker.ret,
    Invoker.throw, Invoker.lookup_abi, Invoker.bound_contractAddress.
  cbn [Invoker.abiConfiguration Invoker.configuration Invoker.bin
       Invoker.defaultWallet Invoker.contractAddress].
  reduce_invoker.
  repeat case_scrutinee.
  all: intros Hin; pick_request; try discriminate.
  all: match goal with
       | H : Invoker.EstimateGas _ _ = Invoker.EstimateGas _ _ |- _ =>
           injection H as <- <-
       end.
  all: split; [intros [Ha Ht] | intros [Ha | Ht]]; try congruence;
    try reflexivity; eauto.
Qed.

Lemma adhoc_calls_estimate_for_the_logged_in_account_witness :
  (Some [Samples.transfer_entry] <> None
   /\ truthy_string Samples.adhoc_address = true ->
   Some "0xalice"%string = Some (address alice))
  /\ (Some [Samples.transfer_entry] = None
      \/ truthy_string Samples.adhoc_address = false ->
      exists cfg,
        Invoker.abiConfiguration (this fresh_engine) = Some cfg
        /\ Some "0xalice"%string = Invoker.abi_defaultWallet cfg).
Proof.
  apply (adhoc_calls_estimate_for_the_logged_in_account decrypt_alice
           fresh_engine (Some "alice.json"%string) (Some "secret"%string)
           alice engine_of_alice Samples.healthy_node "transfer"%string []
           Samples.no_options None (Some [Samples.transfer_entry])
           Samples.adhoc_address (Some "0x6080"%string)
           (Some "0xalice"%string)).
  - reflexivity.
  - cbn. right. left. reflexivity.
Defined.

End AccountsFacts.

(* ===================================================================== *)
(** ** Facts about the raw requests *)
(* ===================================================================== *)

Module RawRequestFacts.
Import RawRequest MoreSamples.



End RawRequestFacts.

(* ===================================================================== *)
(** ** Facts about the coin factory *)
(* ===================================================================== *)

Module CoinFactoryFacts.
Import CoinFactory.

(** [createCoin] gives different coins different classes, and throws for
    no coin it names. *)
Theorem createCoin_is_injective (c1 c2 : Coins) (m : CoinModel) :
  createCoin c1 = Some m -> createCoin c2 = Some m -> c1 = c2.
Proof.
  destruct c1; cbn; intros H1; try discriminate H1; injection H1 as <-;
    destruct c2; cbn; intros H2; try discriminate H2; reflexivity.
Qed.

Lemma createCoin_is_injective_witness : PAY = PAY.
Proof.
  apply (createCoin_is_injective PAY PAY TenxCoinModel); reflexivity.
Defined.

(** The two lists of the factory name no class twice and share none;
    every class of [createAllCoins] can also be made from its coin by
    [createCoin]; of [createSoonCoins] only the Decred and Litecoin
    classes can; and the classes [createCoin] makes that are in neither
    list are those of GNO and GNT. *)
Theorem coin_lists_are_duplicate_free_and_disjoint :
  NoDup (createAllCoins ++ createSoonCoins)
  /\ (forall m, In m createAllCoins -> exists c, createCoin c = Some m)
  /\ (forall m, In m createSoonCoins ->
        ((exists c, createCoin c = Some m)
         <-> m = DcrCoinModel \/ m = LtcCoinModel))
  /\ (forall c m, createCoin c = Some m ->
        ~ In m (createAllCoins ++ createSoonCoins) ->
        c = GNO \/ c = GNT).
Proof.
  split; [|split; [|split]].
  - unfold createAllCoins, createSoonCoins. cbn [app].
    repeat (constructor;
            [cbn [In]; intros H;
             repeat (destruct H as [H | H]; [discriminate H|]); exact H|]).
    constructor.
  - intros m Hm. cbn in Hm.
    repeat (destruct Hm as [<- | Hm];
            [first [ now exists BTC | now exists ETH | now exists REP
                   | now exists ANT | now exists BAT | now exists EOS
                   | now exists SALT | now exists CVC | now exists DNT
                   | now exists SNT | now exists SUB | now exists TRX
                   | now exists OMG | now exists BTM | now exists DENT
                   | now exists PPT | now exists MKR | now exists DGD
                   | now exists QASH | now exists ETHOS | now exists FUN
                   | now exists ZRX | now exists REQ | now exists BNT
                   | now exists ICN | now exists PAY | now exists STORJ
                   | now exists ENJ | now exists MCO | now exists EDG
                   | now exists VET | now exists ICX ]|]).
    contradiction.
  - intros m Hm. cbn in Hm.
    repeat (destruct Hm as [<- | Hm];
            [split;
             [ intros [c Hc]; destruct c; cbn in Hc; try discriminate Hc; tauto
             | intros [H | H]; try discriminate H;
               first [now exists DCR | now exists LTC] ]|]).
    contradiction.
  - intros c m Hc Hn. destruct c; cbn in Hc; try discriminate Hc;
      injection Hc as <-; try tauto; exfalso; apply Hn; cbn; tauto.
Qed.

End CoinFactoryFacts.

(* ===================================================================== *)
(** ** Facts about the token preview chart *)
(* ===================================================================== *)

Module ChartFacts.
Import Chart MoreSamples.

Lemma samples_of_series (prices : list Sample) :
  map (fun s => (serie_name s, serie_value s))
    (map (fun price => {| serie_name := fst price; serie_value := snd price |})
       prices) = prices.
Proof.
  induction prices as [|[t v] prices IH]; cbn; [reflexivity | now rewrite IH].
Qed.

(** When the history has its three fields, the chart shown after an
    emission has one series per flag that is on, in the order price,
    volume, market cap and under these labels, each with the samples of
    its field in their order; the flags are untouched and the content is
    marked loaded.  When a field is missing nothing of the component
    changes. *)
Theorem chart_shows_one_series_per_enabled_flag c e price volume market :
  e "price"%string = Some price ->
  e "volume"%string = Some volume ->
  e "market_cap"%string = Some market ->
  let c' := on_history c e in
  contentLoaded c' = true
  /\ chartPrice c' = chartPrice c /\ chartVolume c' = chartVolume c
  /\ chartMarket c' = chartMarket c
  /\ exists charts,
       multi c' = map Some charts
       /\ map name charts = enabled_labels c
       /\ forall m, In m charts ->
            map (fun s => (serie_name s, serie_value s)) (series m)
            = (if String.eqb (name m) "PRICE" then price
               else if String.eqb (name m) "VOLUME" then volume
               else market).
Proof.
  intros Hp Hv Hm c'. subst c'.
  unfold on_history, chart_of, parseMap. rewrite Hp, Hv, Hm.
  unfold updateChart_next, enabled_labels. cbn [contentLoaded chartPrice
    chartVolume chartMarket multi].
  repeat split.
  set (to_serie := fun price : Sample =>
                     {| serie_name := fst price; serie_value := snd price |}).
  exists ((if chartPrice c
           then [{| name := "PRICE"; series := map to_serie price |}] else [])
          ++ (if chartVolume c
              then [{| name := "VOLUME"; series := map to_serie volume |}]
              else [])
          ++ (if chartMarket c
              then [{| name := "MARKET CAP"; series := map to_serie market |}]
              else [])).
  destruct (chartPrice c), (chartVolume c), (chartMarket c);
    cbn [nth_error app map name];
    (split; [reflexivity|]); (split; [reflexivity|]);
    intros m Hin; cbn [In] in Hin;
    repeat (destruct Hin as [<- | Hin]; [cbn; apply samples_of_series|]);
    contradiction.
Qed.

Lemma chart_shows_one_series_per_enabled_flag_witness :
  contentLoaded (on_history new_component two_days) = true
  /\ chartPrice (on_history new_component two_days) = true
  /\ chartVolume (on_history new_component two_days) = false
  /\ chartMarket (on_history new_component two_days) = false
  /\ exists charts,
       multi (on_history new_component two_days) = map Some charts
       /\ map name charts = ["PRICE"%string]
       /\ forall m, In m charts ->
            map (fun s => (serie_name s, serie_value s)) (series m)
            = (if String.eqb (name m) "PRICE"
               then [("1", "10.5"); ("2", "11")]
               else if String.eqb (name m) "VOLUME"
                    then [("1", "300"); ("2", "280")]
                    else [("1", "9000"); ("2", "9100")])%string.
Proof.
  apply (chart_shows_one_series_per_enabled_flag new_component two_days
           [("1", "10.5"); ("2", "11")]%string
           [("1", "300"); ("2", "280")]%string
           [("1", "9000"); ("2", "9100")]%string); reflexivity.
Defined.

(** A history that lacks one of the three fields changes nothing: the
    map throws and the subscriber is not called. *)
Theorem incomplete_history_leaves_the_chart c e :
  e "price"%string = None \/ e "volume"%string = None
  \/ e "market_cap"%string = None ->
  on_history c e = c.
Proof.
  intros H. unfold on_history, chart_of, parseMap.
  destruct (e "price"%string); [|reflexivity].
  destruct (e "volume"%string); [|reflexivity].
  destruct (e "market_cap"%string); [|reflexivity].
  destruct H as [H | [H | H]]; discriminate H.
Qed.

Lemma incomplete_history_leaves_the_chart_witness :
  on_history new_component (fun _ => None) = new_component.
Proof.
  apply (incomplete_history_leaves_the_chart new_component (fun _ => None)).
  left. reflexivity.
Defined.

End ChartFacts.
